(** * Cockermouth running shop: the dashboard's model, embedded and verified

    The source is one Streamlit script.  Its sidebar reads a preset
    dictionary and yields 25 numbers; its "core calculations" turn them
    into revenue streams, gross profit, opex, operating profit, blended
    margin and breakeven sales; a numpy fragment spreads turnover over
    twelve months; [fmt_gbp] and two f-strings render the figures.

    Number model.  Python floats are binary64.  The first development
    idealises finite floats as exact rationals ([Q]), which is the reading
    under which the specification states its equalities (it allows a relative
    tolerance of 1e-9 for rounding).  The non-finite floats are kept as
    explicit values of [pyfloat], because the script creates [np.nan] on
    purpose and numpy division can create infinities.  Module [Binary64]
    repeats the core on Rocq's primitive binary64 floats, so that concrete
    runs can also be evaluated with the machine's rounding.  Module
    [Double] runs the script on the widgets' own values, Python ints and
    doubles, where overflow, NaN, minus zero and the conversion of ints
    show: what is stated about signs, exceptions and the rendered table is
    stated there. *)

From Stdlib Require Import QArith Qround Qabs Lqa ZArith Lia String Ascii List Floats Uint63.
From Stdlib Require Import DecimalString DecimalN DecimalFacts.
From stdpp Require Import gmap strings list.

Local Open Scope Q_scope.

(** ** Python values and exceptions *)

(** A Python float: a finite value (idealised as a rational) or one of the
    three non-finite values. *)
Inductive pyfloat : Type :=
  | Fin (q : Q)
  | PosInf
  | NegInf
  | NaN.

(** The values stored in the [defaults] dictionary: int and float
    literals. *)
Inductive pyval : Type :=
  | PyInt (z : Z)
  | PyFloat (q : Q).

Inductive pyexc : Type :=
  | KeyError (k : string)
  | ZeroDivisionError
  | IndexError
  | OverflowError
  | ValueError
  | TypeError.

(** Result of running a fragment that may raise. *)
Inductive pyres (A : Type) : Type :=
  | Ok (a : A)
  | Raise (e : pyexc).
Arguments Ok {A} a.
Arguments Raise {A} e.

(** Sequencing: the first exception raised ends the fragment. *)
#[global] Instance pyres_ret : MRet pyres := fun A a => Ok a.
#[global] Instance pyres_bind : MBind pyres := fun A B k m =>
  match m with
  | Ok a => k a
  | Raise e => Raise e
  end.

(** [try: m  except Exception: h] *)
Definition try_except {A : Type} (m : pyres A) (h : A) : A :=
  match m with
  | Ok a => a
  | Raise _ => h
  end.

(** Boolean comparisons on rationals. *)
Definition Qltb (a b : Q) : bool := negb (Qle_bool b a).
Definition Qeqb (a b : Q) : bool := Qeq_bool a b.

(** [x > 0] on floats: every comparison with NaN is False. *)
Definition pf_gt0 (x : pyfloat) : bool :=
  match x with
  | Fin q => Qltb 0 q
  | PosInf => true
  | NegInf => false
  | NaN => false
  end.

(** [bool(x)]: a float is falsy exactly when it is zero; NaN is truthy. *)
Definition pf_truthy (x : pyfloat) : bool :=
  match x with
  | Fin q => negb (Qeqb q 0)
  | _ => true
  end.

(** [np.isnan(x)] *)
Definition isnan (x : pyfloat) : bool :=
  match x with
  | NaN => true
  | _ => false
  end.

(** Python's [a / b] on two finite floats: raises on a zero divisor. *)
Definition py_div (a b : Q) : pyres pyfloat :=
  if Qeqb b 0 then Raise ZeroDivisionError else Ok (Fin (a / b)).

(** Python's [a / x] with a finite numerator and any float divisor. *)
Definition py_div_pf (a : Q) (x : pyfloat) : pyres pyfloat :=
  match x with
  | Fin b => py_div a b
  | PosInf | NegInf => Ok (Fin 0)
  | NaN => Ok NaN
  end.

(** [x * c] for a float [x] and a finite [c] (IEEE rules for the
    non-finite cases). *)
Definition pf_mul (x : pyfloat) (c : Q) : pyfloat :=
  match x with
  | Fin a => Fin (a * c)
  | PosInf => if Qltb 0 c then PosInf else if Qltb c 0 then NegInf else NaN
  | NegInf => if Qltb 0 c then NegInf else if Qltb c 0 then PosInf else NaN
  | NaN => NaN
  end.

(** numpy's elementwise [a / s] on finite floats: no exception, a zero
    divisor gives an infinity or NaN. *)
Definition np_div (a s : Q) : pyfloat :=
  if Qeqb s 0
  then (if Qltb 0 a then PosInf else if Qltb a 0 then NegInf else NaN)
  else Fin (a / s).

(** ** Defaults and presets (source lines 28-76) *)

Local Open Scope string_scope.

Definition defaults_items : list (string * pyval) :=
  [ ("pop", PyInt 8860);
    ("adult_share", PyFloat 0.80);
    ("run_share", PyFloat 0.30);
    ("pairs_per_runner", PyFloat 0.70);
    ("capture_local", PyFloat 0.40);
    ("asp_shoes", PyFloat 130.0);
    ("attach_apparel", PyFloat 0.40);
    ("tourist_footfall", PyInt 8000);
    ("tourist_conv", PyFloat 0.020);
    ("tourist_aov", PyFloat 125.0);
    ("num_events", PyInt 2);
    ("event_sales", PyFloat 6000.0);
    ("service_units", PyInt 400);
    ("service_price", PyFloat 10.0);
    ("gm_shoes", PyFloat 0.43);
    ("gm_apparel", PyFloat 0.52);
    ("gm_tour", PyFloat 0.45);
    ("rent", PyFloat 29000.0);
    ("staff", PyFloat 15000.0);
    ("utilities", PyFloat 7000.0);
    ("marketing", PyFloat 8000.0);
    ("misc", PyFloat 5000.0);
    ("other", PyFloat 0.0);
    ("summer_uplift", PyFloat 0.25);
    ("shoulder_uplift", PyFloat 0.10) ].

(** [dict(k=v, ...)] *)
Definition dict (items : list (string * pyval)) : gmap string pyval :=
  list_to_map items.

Definition defaults : gmap string pyval := dict defaults_items.

(** [{**d, **o}]: the keys of [o] win, the rest comes from [d].  stdpp's
    union of maps prefers its left argument. *)
Definition dict_merge (d o : gmap string pyval) : gmap string pyval := o ∪ d.

Definition conservative_items : list (string * pyval) :=
  [ ("capture_local", PyFloat 0.30);
    ("tourist_footfall", PyInt 6000);
    ("tourist_conv", PyFloat 0.015);
    ("num_events", PyInt 1);
    ("event_sales", PyFloat 5000.0);
    ("staff", PyFloat 12000.0);
    ("marketing", PyFloat 6000.0) ].

Definition conservative_overrides : gmap string pyval :=
  dict conservative_items.

Definition stretch_items : list (string * pyval) :=
  [ ("capture_local", PyFloat 0.55);
    ("tourist_footfall", PyInt 10000);
    ("tourist_conv", PyFloat 0.025);
    ("num_events", PyInt 3);
    ("event_sales", PyFloat 8000.0);
    ("staff", PyFloat 20000.0);
    ("marketing", PyFloat 10000.0) ].

Definition stretch_overrides : gmap string pyval := dict stretch_items.

Definition presets : gmap string (gmap string pyval) :=
  list_to_map [
    ("Conservative", dict_merge defaults conservative_overrides);
    ("Base", defaults);
    ("Stretch", dict_merge defaults stretch_overrides)
  ].

(** The seven keys the two non-Base presets override. *)
Definition overridden_list : list string :=
  ["capture_local"; "tourist_footfall"; "tourist_conv"; "num_events";
   "event_sales"; "staff"; "marketing"].

Definition overridden_keys : gset string := list_to_set overridden_list.

(** Lookup in a list of items, the first entry for a key winning. *)
Fixpoint assoc (items : list (string * pyval)) (k : string) : option pyval :=
  match items with
  | [] => None
  | (k', v) :: rest => if String.eqb k' k then Some v else assoc rest k
  end.

(** ** The sidebar (source lines 79-119) *)

(** The 25 numbers the widgets hand to the calculations.  Integer widgets
    ([min_value] an int) give ints, the others floats. *)
Record Assumptions : Type := {
  pop : Z;
  adult_share : Q;
  run_share : Q;
  pairs_per_runner : Q;
  capture_local : Q;
  asp_shoes : Q;
  attach_apparel : Q;
  tourist_footfall : Z;
  tourist_conv : Q;
  tourist_aov : Q;
  num_events : Z;
  event_sales : Q;
  service_units : Z;
  service_price : Q;
  gm_shoes : Q;
  gm_apparel : Q;
  gm_tour : Q;
  rent : Q;
  staff : Q;
  utilities : Q;
  marketing : Q;
  misc : Q;
  other : Q;
  summer_uplift : Q;
  shoulder_uplift : Q
}.

(** [p[k]] *)
Definition getitem (p : gmap string pyval) (k : string) : pyres pyval :=
  match p !! k with
  | Some v => Ok v
  | None => Raise (KeyError k)
  end.

(** [int(v)]: truncation toward zero on floats. *)
Definition py_int (v : pyval) : Z :=
  match v with
  | PyInt z => z
  | PyFloat q => Z.quot (Qnum q) (Zpos (Qden q))
  end.

(** [float(v)] *)
Definition py_float (v : pyval) : Q :=
  match v with
  | PyInt z => inject_Z z
  | PyFloat q => q
  end.

Definition get_int (p : gmap string pyval) (k : string) : pyres Z :=
  v ← getitem p k; Ok (py_int v).

Definition get_float (p : gmap string pyval) (k : string) : pyres Q :=
  v ← getitem p k; Ok (py_float v).

(** The widgets left untouched: each returns its [value=] argument. *)
Definition sidebar (p : gmap string pyval) : pyres Assumptions :=
  pop ← get_int p "pop";
  adult_share ← get_float p "adult_share";
  run_share ← get_float p "run_share";
  pairs_per_runner ← get_float p "pairs_per_runner";
  capture_local ← get_float p "capture_local";
  asp_shoes ← get_float p "asp_shoes";
  attach_apparel ← get_float p "attach_apparel";
  tourist_footfall ← get_int p "tourist_footfall";
  tourist_conv ← get_float p "tourist_conv";
  tourist_aov ← get_float p "tourist_aov";
  num_events ← get_int p "num_events";
  event_sales ← get_float p "event_sales";
  service_units ← get_int p "service_units";
  service_price ← get_float p "service_price";
  gm_shoes ← get_float p "gm_shoes";
  gm_apparel ← get_float p "gm_apparel";
  gm_tour ← get_float p "gm_tour";
  rent ← get_float p "rent";
  staff ← get_float p "staff";
  utilities ← get_float p "utilities";
  marketing ← get_float p "marketing";
  misc ← get_float p "misc";
  other ← get_float p "other";
  summer_uplift ← get_float p "summer_uplift";
  shoulder_uplift ← get_float p "shoulder_uplift";
  Ok {| pop := pop; adult_share := adult_share; run_share := run_share;
        pairs_per_runner := pairs_per_runner; capture_local := capture_local;
        asp_shoes := asp_shoes; attach_apparel := attach_apparel;
        tourist_footfall := tourist_footfall; tourist_conv := tourist_conv;
        tourist_aov := tourist_aov; num_events := num_events;
        event_sales := event_sales; service_units := service_units;
        service_price := service_price; gm_shoes := gm_shoes;
        gm_apparel := gm_apparel; gm_tour := gm_tour; rent := rent;
        staff := staff; utilities := utilities; marketing := marketing;
        misc := misc; other := other; summer_uplift := summer_uplift;
        shoulder_uplift := shoulder_uplift |}.

Local Close Scope string_scope.

(** ** Core calculations (source lines 122-152) *)

Section Core.
Variable a : Assumptions.

(** An int times a float is a float: the int is converted first. *)
Definition adults : Q := inject_Z (pop a) * adult_share a.
Definition runners : Q := adults * run_share a.
Definition local_pairs : Q := runners * pairs_per_runner a.
Definition local_pairs_captured : Q := local_pairs * capture_local a.
Definition rev_local_shoes : Q := local_pairs_captured * asp_shoes a.
Definition rev_local_apparel : Q := rev_local_shoes * attach_apparel a.
Definition rev_tourist_core : Q :=
  inject_Z (tourist_footfall a) * tourist_conv a * tourist_aov a.
Definition rev_events : Q := inject_Z (num_events a) * event_sales a.
Definition rev_services : Q := inject_Z (service_units a) * service_price a.

Definition turnover : Q :=
  rev_local_shoes + rev_local_apparel + rev_tourist_core + rev_events
  + rev_services.

Definition gp_shoes : Q := rev_local_shoes * gm_shoes a.
Definition gp_apparel : Q := rev_local_apparel * gm_apparel a.
Definition gp_tour : Q := (rev_tourist_core + rev_events) * gm_tour a.
Definition gp_services : Q := rev_services.

Definition gp_total : Q := gp_shoes + gp_apparel + gp_tour + gp_services.

Definition opex : Q :=
  rent a + staff a + utilities a + marketing a + misc a + other a.
Definition op : Q := gp_total - opex.

(** [try: gp_pct = gp_total / turnover if turnover > 0 else np.nan]
    [except Exception: gp_pct = np.nan] *)
Definition gp_pct : pyfloat :=
  try_except
    (if Qltb 0 turnover then py_div gp_total turnover else Ok NaN)
    NaN.

(** [be_sales = (opex / gp_pct) if (gp_pct and gp_pct > 0) else np.nan].
    This division is outside any [try]. *)
Definition be_sales : pyres pyfloat :=
  if pf_truthy gp_pct && pf_gt0 gp_pct
  then py_div_pf opex gp_pct
  else Ok NaN.
End Core.

(** ** Seasonality (source lines 180-186) *)

(** [np.ones(n)] *)
Definition np_ones (n : nat) : list Q := repeat 1 n.

(** [arr[i]] for one entry of an index list: past the end numpy raises
    IndexError. *)
Definition np_item (arr : list Q) (i : nat) : pyres Q :=
  match arr !! i with
  | Some x => Ok x
  | None => Raise IndexError
  end.

(** [arr[idxs] *= c] with a list of indices: the selected entries are read,
    multiplied, and written back. *)
Definition imul_index (idxs : list nat) (c : Q) (arr : list Q)
  : pyres (list Q) :=
  vals ← mapM (fun i => x ← np_item arr i; Ok (x * c)) idxs;
  Ok (foldl (fun acc iv => <[fst iv := snd iv]> acc) arr (zip idxs vals)).

(** [arr[lo:hi] *= c]: a slice is clipped to the array, never raises. *)
Definition imul_slice (lo hi : nat) (c : Q) (arr : list Q) : list Q :=
  take lo arr ++ map (fun x => x * c) (take (hi - lo) (drop lo arr))
  ++ drop hi arr.

(** [arr.sum()].  numpy adds the entries in a blocked order; with exact
    numbers the order does not matter. *)
Definition np_sum (arr : list Q) : Q := foldl Qplus 0 arr.

Section Season.
(** Annual turnover and the two slider values. *)
Variables (t summer shoulder : Q).

Definition base : list Q := np_ones 12.

(** May and September are indices 4 and 8, June to August 5 to 7. *)
Definition upl : pyres (list Q) :=
  u ← imul_index [4%nat; 8%nat] (1 + shoulder) base;
  Ok (imul_slice 5 8 (1 + summer) u).

(** [shares = upl / upl.sum()] *)
Definition shares_of (u : list Q) : list pyfloat :=
  map (fun x => np_div x (np_sum u)) u.

Definition shares : pyres (list pyfloat) := u ← upl; Ok (shares_of u).

(** The [Turnover] column of [season_df]: [shares * turnover]. *)
Definition season_of : pyres (list pyfloat) :=
  s ← shares; Ok (map (fun x => pf_mul x t) s).
End Season.

Definition season_turnover (a : Assumptions) : pyres (list pyfloat) :=
  season_of (turnover a) (summer_uplift a) (shoulder_uplift a).

Definition months : list string :=
  ["Jan"; "Feb"; "Mar"; "Apr"; "May"; "Jun"; "Jul"; "Aug"; "Sep"; "Oct";
   "Nov"; "Dec"]%string.

(** ** One run of the calculations *)

Record Results : Type := {
  r_adults : Q;
  r_runners : Q;
  r_local_pairs : Q;
  r_local_pairs_captured : Q;
  r_rev_local_shoes : Q;
  r_rev_local_apparel : Q;
  r_rev_tourist_core : Q;
  r_rev_events : Q;
  r_rev_services : Q;
  r_turnover : Q;
  r_gp_shoes : Q;
  r_gp_apparel : Q;
  r_gp_tour : Q;
  r_gp_services : Q;
  r_gp_total : Q;
  r_opex : Q;
  r_op : Q;
  r_gp_pct : pyfloat;
  r_be_sales : pyfloat;
  r_season : list pyfloat
}.

Definition results_of (a : Assumptions) (be : pyfloat)
  (season : list pyfloat) : Results :=
  {| r_adults := adults a; r_runners := runners a;
     r_local_pairs := local_pairs a;
     r_local_pairs_captured := local_pairs_captured a;
     r_rev_local_shoes := rev_local_shoes a;
     r_rev_local_apparel := rev_local_apparel a;
     r_rev_tourist_core := rev_tourist_core a;
     r_rev_events := rev_events a; r_rev_services := rev_services a;
     r_turnover := turnover a; r_gp_shoes := gp_shoes a;
     r_gp_apparel := gp_apparel a; r_gp_tour := gp_tour a;
     r_gp_services := gp_services a; r_gp_total := gp_total a;
     r_opex := opex a; r_op := op a; r_gp_pct := gp_pct a;
     r_be_sales := be; r_season := season |}.

(** The script from line 122 to line 186, rendering left out: every value
    it binds, or the exception that stops it. *)
Definition run (a : Assumptions) : pyres Results :=
  be ← be_sales a;
  season ← season_turnover a;
  Ok (results_of a be season).

(** The sum of a list of numbers. *)
Definition Qsum (l : list Q) : Q := foldr Qplus 0 l.

(** ** Rendering (source lines 21-25, 161, 212-213) *)

(** Round to the nearest integer, a tie going to the even neighbour: what
    the [f] format does with the exact value of a float. *)
Definition round_half_even (q : Q) : Z :=
  let f := Qfloor q in
  let r := q - inject_Z f in
  if Qltb r (1 # 2) then f
  else if Qltb (1 # 2) r then (f + 1)%Z
  else if Z.even f then f else (f + 1)%Z.

(** Decimal digits of a natural number, most significant first. *)
Definition digits (n : N) : string := NilZero.string_of_uint (N.to_uint n).

(** Walk the digits from the least significant one; [k] counts the digits
    written since the last comma. *)
Fixpoint commas_rev (k : nat) (ds : list ascii) : list ascii :=
  match ds with
  | [] => []
  | d :: ds' =>
      match k with
      | 3%nat => ","%char :: d :: commas_rev 1 ds'
      | _ => d :: commas_rev (S k) ds'
      end
  end.

(** The [,] option: a comma before every group of three digits, counted
    from the right. *)
Definition group3 (s : string) : string :=
  string_of_list_ascii
    (rev (commas_rev 0 (rev (list_ascii_of_string s)))).

Definition sign_of (q : Q) : string :=
  if Qltb q 0 then "-" else EmptyString.

(** [format(x, ",.0f")] on a float. *)
Definition format_f0 (x : pyfloat) : string :=
  match x with
  | Fin q => sign_of q +:+ group3 (digits (Z.abs_N (round_half_even q)))
  | PosInf => "inf"
  | NegInf => "-inf"
  | NaN => "nan"
  end.

(** [format(x, ".1f")] on a float. *)
Definition format_f1 (x : pyfloat) : string :=
  match x with
  | Fin q =>
      let n := Z.abs_N (round_half_even (q * 10)) in
      sign_of q +:+ digits (n / 10) +:+ "." +:+ digits (n mod 10)
  | PosInf => "inf"
  | NegInf => "-inf"
  | NaN => "nan"
  end.

(** What [fmt_gbp] can be handed. *)
Inductive pyobj : Type :=
  | OFloat (x : pyfloat)
  | OInt (z : Z)
  | ONone
  | OStr (s : string).

(** [float(z)] on an int, as the [f] format applies it: the nearest double,
    a tie going to the even mantissa, given by its exact value; an int that
    rounds past the largest double raises OverflowError.  An int of at most
    53 bits is kept; a longer one of [e] bits keeps its leading 53 bits,
    rounded, so its double is a multiple of [2 ^ (e - 53)]. *)
Definition float_of_int (z : Z) : pyres Q :=
  let m := Z.abs z in
  let s := (Z.log2 m + 1 - 53)%Z in
  if (s <=? 0)%Z then Ok (inject_Z z)
  else
    let r := round_half_even (m # Z.to_pos (2 ^ s)) in
    let v := (r * 2 ^ s)%Z in
    if (2 ^ 1024 <=? v)%Z then Raise OverflowError
    else Ok (inject_Z (Z.sgn z * v)).

(** [f"{x:,.0f}"]: a float is formatted; an int is converted to a float
    first, which can raise; other objects reject the format. *)
Definition format_obj_f0 (x : pyobj) : pyres string :=
  match x with
  | OFloat y => Ok (format_f0 y)
  | OInt z => y ← float_of_int z; Ok (format_f0 (Fin y))
  | ONone => Raise TypeError
  | OStr _ => Raise ValueError
  end.

Definition em_dash : string := "—".
Definition pound : string := "£".

(** [def fmt_gbp(x): try: return f"£{x:,.0f}"  except Exception: return "—"] *)
Definition fmt_gbp (x : pyobj) : string :=
  try_except (s ← format_obj_f0 x; Ok (pound +:+ s)) em_dash.

(** The caption of line 161, given the two ratios. *)
Definition caption_of (gp be : pyfloat) : string :=
  "Blended GP%: " +:+ format_f1 (pf_mul gp 100) +:+ "% | Breakeven sales: "
  +:+ (if negb (isnan be) then fmt_gbp (OFloat be) else em_dash).

Definition caption (a : Assumptions) : pyres string :=
  be ← be_sales a; Ok (caption_of (gp_pct a) be).

(** The two guarded cells of the detailed table (lines 212-213). *)
Definition gp_pct_cell (gp : pyfloat) : string :=
  if negb (isnan gp) then format_f1 (pf_mul gp 100) +:+ "%" else em_dash.

Definition be_sales_cell (be : pyfloat) : string :=
  if negb (isnan be) then fmt_gbp (OFloat be) else em_dash.

(** Removing the separators again. *)
Definition not_comma (c : ascii) : bool := negb (Ascii.eqb c ",").

Definition strip_commas (s : string) : string :=
  string_of_list_ascii (List.filter not_comma (list_ascii_of_string s)).

(** The characters of a string counted from the right, the last one being
    number 0. *)
Definition from_right (s : string) (i : nat) : option ascii :=
  nth_error (rev (list_ascii_of_string s)) i.

Definition comma_free (l : list ascii) : Prop :=
  Forall (fun c => c <> ","%char) l.

(** Reading a string of decimal digits. *)
Definition parse_digits (s : string) : option N :=
  N.of_uint <$> NilZero.uint_of_string s.

(** ** The core on binary64 floats *)

Module Binary64.
Local Open Scope float_scope.

(** [float(z)] for an int below 2^63 in size (correctly rounded, and
    exact below 2^53). *)
Definition of_int (z : Z) : float :=
  if (z <? 0)%Z
  then - PrimFloat.of_uint63 (Uint63.of_Z (- z))
  else PrimFloat.of_uint63 (Uint63.of_Z z).

(** The double a decimal literal or widget value denotes: the one nearest
    to it.  Division is correctly rounded, so dividing the (exactly
    represented) numerator by the denominator gives that double. *)
Definition of_decimal (q : Q) : float :=
  of_int (Qnum q) / of_int (Zpos (Qden q)).

Definition nan : float := PrimFloat.nan.

Definition py_div (x y : float) : pyres float :=
  if y =? 0 then Raise ZeroDivisionError else Ok (x / y).

Definition truthy (x : float) : bool := negb (x =? 0).

Section Core.
Variable a : Assumptions.

Definition adults : float := of_int (pop a) * of_decimal (adult_share a).
Definition runners : float := adults * of_decimal (run_share a).
Definition local_pairs : float := runners * of_decimal (pairs_per_runner a).
Definition local_pairs_captured : float :=
  local_pairs * of_decimal (capture_local a).
Definition rev_local_shoes : float :=
  local_pairs_captured * of_decimal (asp_shoes a).
Definition rev_local_apparel : float :=
  rev_local_shoes * of_decimal (attach_apparel a).
Definition rev_tourist_core : float :=
  of_int (tourist_footfall a) * of_decimal (tourist_conv a)
  * of_decimal (tourist_aov a).
Definition rev_events : float :=
  of_int (num_events a) * of_decimal (event_sales a).
Definition rev_services : float :=
  of_int (service_units a) * of_decimal (service_price a).

Definition turnover : float :=
  rev_local_shoes + rev_local_apparel + rev_tourist_core + rev_events
  + rev_services.

Definition gp_shoes : float := rev_local_shoes * of_decimal (gm_shoes a).
Definition gp_apparel : float :=
  rev_local_apparel * of_decimal (gm_apparel a).
Definition gp_tour : float :=
  (rev_tourist_core + rev_events) * of_decimal (gm_tour a).
Definition gp_services : float := rev_services.

Definition gp_total : float :=
  gp_shoes + gp_apparel + gp_tour + gp_services.

Definition opex : float :=
  of_decimal (rent a) + of_decimal (staff a) + of_decimal (utilities a)
  + of_decimal (marketing a) + of_decimal (misc a) + of_decimal (other a).
Definition op : float := gp_total - opex.

Definition gp_pct : float :=
  try_except
    (if 0 <? turnover then py_div gp_total turnover else Ok nan)
    nan.

Definition be_sales : pyres float :=
  if truthy gp_pct && (0 <? gp_pct)
  then py_div opex gp_pct
  else Ok nan.
End Core.

(** [|x - y| <= 1e-9 * |y|]: the relative tolerance the specification
    allows for rounding. *)
Definition close (x y : float) : bool :=
  abs (x - y) <=? of_decimal (1 # 1000000000)%Q * abs y.
End Binary64.

(** ** The rest of the script: sidebar keys, tables, reading amounts *)

(** The keys the sidebar reads, in the order it reads them. *)
Definition sidebar_keys : list string :=
  ["pop"; "adult_share"; "run_share"; "pairs_per_runner"; "capture_local";
   "asp_shoes"; "attach_apparel"; "tourist_footfall"; "tourist_conv";
   "tourist_aov"; "num_events"; "event_sales"; "service_units";
   "service_price"; "gm_shoes"; "gm_apparel"; "gm_tour"; "rent"; "staff";
   "utilities"; "marketing"; "misc"; "other"; "summer_uplift";
   "shoulder_uplift"]%string.

(** [pd.DataFrame({c1: xs, c2: ys})]: the two columns must have the same
    length, or the constructor raises ValueError. *)
Definition data_frame {A B : Type} (xs : list A) (ys : list B)
  : pyres (list (A * B)) :=
  if Nat.eqb (length xs) (length ys) then Ok (zip xs ys)
  else Raise ValueError.

(** A cell of the detailed table: an int from [round], or a string. *)
Inductive cell : Type :=
  | CInt (z : Z)
  | CStr (s : string).

Definition summary_metrics : list string :=
  ["Adults"; "Runners"; "Local pairs (all)"; "Local pairs captured";
   "Local shoe revenue"; "Local apparel/acc. revenue";
   "Tourist revenue (core)"; "Event burst revenue"; "Service revenue";
   "TOTAL turnover"; "GP – shoes"; "GP – apparel/acc.";
   "GP – tourist/events"; "GP – services"; "TOTAL gross profit"; "Opex";
   "Operating profit"; "Blended GP%"; "Breakeven sales"]%string.

(** An ASCII letter. *)
Definition is_letter (c : ascii) : bool :=
  let n := nat_of_ascii c in
  (Nat.leb 65 n && Nat.leb n 90) || (Nat.leb 97 n && Nat.leb n 122).

Definition letter_free (s : string) : Prop :=
  Forall (fun c => is_letter c = false) (list_ascii_of_string s).

(** A table cell shows no letter. *)
Definition cell_letter_free (c : cell) : Prop :=
  match c with
  | CInt _ => True
  | CStr s => letter_free s
  end.

(** A decimal digit. *)
Definition is_digit (c : ascii) : bool :=
  let n := nat_of_ascii c in Nat.leb 48 n && Nat.leb n 57.

(** [s] without the prefix [p], when it starts with it. *)
Fixpoint drop_prefix (p s : string) : option string :=
  match p with
  | EmptyString => Some s
  | String c p' =>
      match s with
      | EmptyString => None
      | String d s' => if Ascii.eqb c d then drop_prefix p' s' else None
      end
  end.

(** Reading a displayed amount back: the pound sign, an optional minus
    sign, digits with separators. *)
Definition parse_gbp (s : string) : option Z :=
  body ← drop_prefix pound s;
  match drop_prefix "-" body with
  | Some rest => (fun n => (- Z.of_N n)%Z) <$> parse_digits (strip_commas rest)
  | None => Z.of_N <$> parse_digits (strip_commas body)
  end.

(** ** Signs of binary64 values *)

(** Sign bit clear, or NaN. *)
Definition sf_unsigned (s : spec_float) : bool :=
  match s with
  | S754_nan => true
  | S754_zero b | S754_infinity b | S754_finite b _ _ => negb b
  end.

(** Numerically at least zero, or NaN. *)
Definition sf_never_negative (s : spec_float) : bool :=
  match s with
  | S754_nan => true
  | S754_zero _ => true
  | S754_infinity b | S754_finite b _ _ => negb b
  end.

(** Strictly positive. *)
Definition sf_positive (s : spec_float) : bool :=
  match s with
  | S754_infinity b | S754_finite b _ _ => negb b
  | _ => false
  end.

(** ** The script on the widgets' own values (source lines 122-186) *)

(** The sidebar hands the calculations Python ints and binary64 floats.
    This module runs lines 122 to 186 on them as they are, with the
    machine's rounding, overflow to the infinities, and NaN. *)
Module Double.
Local Open Scope float_scope.

(** The 25 widget values: ints from the integer widgets, doubles from the
    others. *)
Record Inputs : Type := {
  pop : Z;
  adult_share : float;
  run_share : float;
  pairs_per_runner : float;
  capture_local : float;
  asp_shoes : float;
  attach_apparel : float;
  tourist_footfall : Z;
  tourist_conv : float;
  tourist_aov : float;
  num_events : Z;
  event_sales : float;
  service_units : Z;
  service_price : float;
  gm_shoes : float;
  gm_apparel : float;
  gm_tour : float;
  rent : float;
  staff : float;
  utilities : float;
  marketing : float;
  misc : float;
  other : float;
  summer_uplift : float;
  shoulder_uplift : float
}.

(** The int operand of [int * float] is converted to a float first: the
    nearest double, a tie going to the even mantissa; an int that rounds
    past the largest double raises OverflowError. *)
Definition float_of_int (z : Z) : pyres float :=
  match binary_normalize prec emax z 0 false with
  | S754_infinity _ => Raise OverflowError
  | s => Ok (SF2Prim s)
  end.

(** Python's [x / y] on floats: raises on a zero divisor, and otherwise
    divides as the machine does. *)
Definition py_div (x y : float) : pyres float :=
  if y =? 0 then Raise ZeroDivisionError else Ok (x / y).

(** [bool(x)] *)
Definition truthy (x : float) : bool := negb (x =? 0).

(** [np.ones(n)] *)
Definition np_ones (n : nat) : list float := repeat 1 n.

(** [arr[i]] for one entry of an index list. *)
Definition np_item (arr : list float) (i : nat) : pyres float :=
  match arr !! i with
  | Some x => Ok x
  | None => Raise IndexError
  end.

(** [arr[idxs] *= c] *)
Definition imul_index (idxs : list nat) (c : float) (arr : list float)
  : pyres (list float) :=
  vals ← mapM (fun i => x ← np_item arr i; Ok (x * c)) idxs;
  Ok (foldl (fun acc iv => <[fst iv := snd iv]> acc) arr (zip idxs vals)).

(** [arr[lo:hi] *= c] *)
Definition imul_slice (lo hi : nat) (c : float) (arr : list float)
  : list float :=
  take lo arr ++ map (fun x => x * c) (take (hi - lo) (drop lo arr))
  ++ drop hi arr.

(** The order in which [arr.sum()] adds the entries is numpy's business,
    not the script's: an order names the entries by index and brackets the
    additions. *)
Inductive sum_order : Type :=
  | Entry (i : nat)
  | Plus (l r : sum_order).

Fixpoint np_sum (o : sum_order) (arr : list float) : float :=
  match o with
  | Entry i => nth i arr 0
  | Plus l r => np_sum l arr + np_sum r arr
  end.

(** One such order, that of numpy's pairwise summation on twelve doubles:
    eight running sums combined pairwise, then the last four entries added
    one by one. *)
Definition pairwise12 : sum_order :=
  Plus (Plus (Plus (Plus
    (Plus (Plus (Plus (Entry 0) (Entry 1)) (Plus (Entry 2) (Entry 3)))
          (Plus (Plus (Entry 4) (Entry 5)) (Plus (Entry 6) (Entry 7))))
    (Entry 8)) (Entry 9)) (Entry 10)) (Entry 11).

Record Results : Type := {
  r_adults : float;
  r_runners : float;
  r_local_pairs : float;
  r_local_pairs_captured : float;
  r_rev_local_shoes : float;
  r_rev_local_apparel : float;
  r_rev_tourist_core : float;
  r_rev_events : float;
  r_rev_services : float;
  r_turnover : float;
  r_gp_shoes : float;
  r_gp_apparel : float;
  r_gp_tour : float;
  r_gp_services : float;
  r_gp_total : float;
  r_opex : float;
  r_op : float;
  r_gp_pct : float;
  r_be_sales : float;
  r_season : list float
}.

(** Lines 122 to 186, statement by statement: every value the script
    binds, or the exception that stops it. *)
Definition run (o : sum_order) (i : Inputs) : pyres Results :=
  pop_f ← float_of_int (pop i);
  let adults := pop_f * adult_share i in
  let runners := adults * run_share i in
  let local_pairs := runners * pairs_per_runner i in
  let local_pairs_captured := local_pairs * capture_local i in
  let rev_local_shoes := local_pairs_captured * asp_shoes i in
  let rev_local_apparel := rev_local_shoes * attach_apparel i in
  tourist_footfall_f ← float_of_int (tourist_footfall i);
  let rev_tourist_core :=
    tourist_footfall_f * tourist_conv i * tourist_aov i in
  num_events_f ← float_of_int (num_events i);
  let rev_events := num_events_f * event_sales i in
  service_units_f ← float_of_int (service_units i);
  let rev_services := service_units_f * service_price i in
  let turnover :=
    rev_local_shoes + rev_local_apparel + rev_tourist_core + rev_events
    + rev_services in
  let gp_shoes := rev_local_shoes * gm_shoes i in
  let gp_apparel := rev_local_apparel * gm_apparel i in
  let gp_tour := (rev_tourist_core + rev_events) * gm_tour i in
  let gp_services := rev_services in
  let gp_total := gp_shoes + gp_apparel + gp_tour + gp_services in
  let opex :=
    rent i + staff i + utilities i + marketing i + misc i + other i in
  let op := gp_total - opex in
  let gp_pct :=
    try_except
      (if 0 <? turnover then py_div gp_total turnover else Ok nan) nan in
  be_sales ←
    (if truthy gp_pct && (0 <? gp_pct) then py_div opex gp_pct
     else Ok nan);
  let base := np_ones 12 in
  upl ← imul_index [4%nat; 8%nat] (1 + shoulder_uplift i) base;
  let upl := imul_slice 5 8 (1 + summer_uplift i) upl in
  let shares := map (fun x => x / np_sum o upl) upl in
  let season := map (fun x => x * turnover) shares in
  Ok {| r_adults := adults; r_runners := runners;
        r_local_pairs := local_pairs;
        r_local_pairs_captured := local_pairs_captured;
        r_rev_local_shoes := rev_local_shoes;
        r_rev_local_apparel := rev_local_apparel;
        r_rev_tourist_core := rev_tourist_core;
        r_rev_events := rev_events; r_rev_services := rev_services;
        r_turnover := turnover; r_gp_shoes := gp_shoes;
        r_gp_apparel := gp_apparel; r_gp_tour := gp_tour;
        r_gp_services := gp_services; r_gp_total := gp_total;
        r_opex := opex; r_op := op; r_gp_pct := gp_pct;
        r_be_sales := be_sales; r_season := season |}.

(** The exact value of a double.  Minus zero is a double of its own, with
    the value of zero. *)
Definition exact (x : float) : pyfloat :=
  match Prim2SF x with
  | S754_zero _ => Fin 0
  | S754_infinity false => PosInf
  | S754_infinity true => NegInf
  | S754_nan => NaN
  | S754_finite s m e =>
      let v := (inject_Z (Zpos m) * 2 ^ e)%Q in
      Fin (if s then (- v)%Q else v)
  end.

Definition is_minus_zero (x : float) : bool :=
  match Prim2SF x with
  | S754_zero true => true
  | _ => false
  end.

(** Neither NaN nor an infinity. *)
Definition finite (x : float) : bool :=
  match exact x with
  | Fin _ => true
  | _ => false
  end.

(** [format(x, ",.0f")] on a double: its exact value is rounded; the sign
    bit shows, also on a zero. *)
Definition format_f0 (x : float) : string :=
  if is_minus_zero x then "-0"%string else format_f0 (exact x).

(** [format(x, ".1f")] on a double. *)
Definition format_f1 (x : float) : string :=
  if is_minus_zero x then "-0.0"%string else format_f1 (exact x).

(** [fmt_gbp] on a double: this format raises on no float. *)
Definition fmt_gbp (x : float) : string :=
  try_except (Ok (pound +:+ format_f0 x)) em_dash.

(** The two guarded cells of the detailed table (lines 212-213). *)
Definition gp_pct_cell (gp_pct : float) : string :=
  if negb (PrimFloat.is_nan gp_pct)
  then (format_f1 (gp_pct * 100) +:+ "%")%string
  else em_dash.

Definition be_sales_cell (be_sales : float) : string :=
  if negb (PrimFloat.is_nan be_sales) then fmt_gbp be_sales else em_dash.

(** [round(x)]: the nearest int, a tie going to the even one; NaN and the
    infinities cannot be converted. *)
Definition py_round (x : float) : pyres Z :=
  match exact x with
  | Fin q => Ok (round_half_even q)
  | PosInf | NegInf => Raise OverflowError
  | NaN => Raise ValueError
  end.

(** [summary] (source lines 199-215): the values are evaluated in order,
    then the two columns are put together. *)
Definition summary (r : Results) : pyres (list (string * cell)) :=
  adults ← py_round (r_adults r);
  runners ← py_round (r_runners r);
  local_pairs ← py_round (r_local_pairs r);
  local_pairs_captured ← py_round (r_local_pairs_captured r);
  data_frame summary_metrics
    [CInt adults; CInt runners; CInt local_pairs; CInt local_pairs_captured;
     CStr (fmt_gbp (r_rev_local_shoes r));
     CStr (fmt_gbp (r_rev_local_apparel r));
     CStr (fmt_gbp (r_rev_tourist_core r));
     CStr (fmt_gbp (r_rev_events r)); CStr (fmt_gbp (r_rev_services r));
     CStr (fmt_gbp (r_turnover r)); CStr (fmt_gbp (r_gp_shoes r));
     CStr (fmt_gbp (r_gp_apparel r)); CStr (fmt_gbp (r_gp_tour r));
     CStr (fmt_gbp (r_gp_services r)); CStr (fmt_gbp (r_gp_total r));
     CStr (fmt_gbp (r_opex r)); CStr (fmt_gbp (r_op r));
     CStr (gp_pct_cell (r_gp_pct r)); CStr (be_sales_cell (r_be_sales r))].

(** The amounts the detailed table shows in pounds. *)
Definition amounts (r : Results) : list float :=
  [r_rev_local_shoes r; r_rev_local_apparel r; r_rev_tourist_core r;
   r_rev_events r; r_rev_services r; r_turnover r; r_gp_shoes r;
   r_gp_apparel r; r_gp_tour r; r_gp_services r; r_gp_total r; r_opex r;
   r_op r].


(** Not a negative number: at least zero, or NaN. *)
Definition never_negative (x : float) : bool :=
  PrimFloat.is_nan x || (0 <=? x).


(** The Base preset as the untouched widgets return it. *)
#[warnings="-inexact-float"]
Definition base_inputs : Inputs :=
  {| pop := 8860; adult_share := 0.80; run_share := 0.30;
     pairs_per_runner := 0.70; capture_local := 0.40; asp_shoes := 130.0;
     attach_apparel := 0.40; tourist_footfall := 8000;
     tourist_conv := 0.020; tourist_aov := 125.0; num_events := 2;
     event_sales := 6000.0; service_units := 400; service_price := 10.0;
     gm_shoes := 0.43; gm_apparel := 0.52; gm_tour := 0.45;
     rent := 29000.0; staff := 15000.0; utilities := 7000.0;
     marketing := 8000.0; misc := 5000.0; other := 0.0;
     summer_uplift := 0.25; shoulder_uplift := 0.10 |}.


(** Base with no demand at all: the costs remain. *)
#[warnings="-inexact-float"]
Definition zero_inputs : Inputs :=
  {| pop := 0; adult_share := 0; run_share := 0; pairs_per_runner := 0;
     capture_local := 0; asp_shoes := 0; attach_apparel := 0;
     tourist_footfall := 0; tourist_conv := 0; tourist_aov := 0;
     num_events := 0; event_sales := 0; service_units := 0;
     service_price := 0; gm_shoes := 0.43; gm_apparel := 0.52;
     gm_tour := 0.45; rent := 29000.0; staff := 15000.0;
     utilities := 7000.0; marketing := 8000.0; misc := 5000.0;
     other := 0.0; summer_uplift := 0.25; shoulder_uplift := 0.10 |}.
End Double.

(** ** Predicates and reference values used by the statements *)

(** A float that is the number zero. *)
Definition is_zero (x : pyfloat) : Prop :=
  match x with
  | Fin q => q == 0
  | _ => False
  end.

(** All demand, tourist, event and service inputs are 0. *)
Definition zero_inputs (a : Assumptions) : Prop :=
  pop a = 0%Z /\ adult_share a == 0 /\ run_share a == 0
  /\ pairs_per_runner a == 0 /\ capture_local a == 0 /\ asp_shoes a == 0
  /\ attach_apparel a == 0 /\ tourist_footfall a = 0%Z
  /\ tourist_conv a == 0 /\ tourist_aov a == 0 /\ num_events a = 0%Z
  /\ event_sales a == 0 /\ service_units a = 0%Z /\ service_price a == 0.

(** The weight vector in the specification's words: 1 for every month,
    [1 + shoulder] for May and September, [1 + summer] for June to
    August. *)
Definition spec_weights (summer shoulder : Q) : list Q :=
  [1; 1; 1; 1; 1 + shoulder; 1 + summer; 1 + summer; 1 + summer;
   1 + shoulder; 1; 1; 1].

(** The record the untouched sidebar yields for the Base preset. *)
Definition base_assumptions : Assumptions :=
  {| pop := 8860; adult_share := 0.80; run_share := 0.30;
     pairs_per_runner := 0.70; capture_local := 0.40; asp_shoes := 130.0;
     attach_apparel := 0.40; tourist_footfall := 8000;
     tourist_conv := 0.020; tourist_aov := 125.0; num_events := 2;
     event_sales := 6000.0; service_units := 400; service_price := 10.0;
     gm_shoes := 0.43; gm_apparel := 0.52; gm_tour := 0.45;
     rent := 29000.0; staff := 15000.0; utilities := 7000.0;
     marketing := 8000.0; misc := 5000.0; other := 0.0;
     summer_uplift := 0.25; shoulder_uplift := 0.10 |}.

(** Base with every demand, tourist, event and service input set to 0. *)
Definition zero_assumptions : Assumptions :=
  {| pop := 0; adult_share := 0; run_share := 0; pairs_per_runner := 0;
     capture_local := 0; asp_shoes := 0; attach_apparel := 0;
     tourist_footfall := 0; tourist_conv := 0; tourist_aov := 0;
     num_events := 0; event_sales := 0; service_units := 0;
     service_price := 0; gm_shoes := 0.43; gm_apparel := 0.52;
     gm_tour := 0.45; rent := 29000.0; staff := 15000.0;
     utilities := 7000.0; marketing := 8000.0; misc := 5000.0;
     other := 0.0; summer_uplift := 0.25; shoulder_uplift := 0.10 |}.

(** * Properties *)

(** ** Comparisons *)

Lemma Qltb_lt (a b : Q) : Qltb a b = true <-> a < b.
Proof.
  unfold Qltb. rewrite negb_true_iff, <- not_true_iff_false, Qle_bool_iff.
  split; [apply Qnot_le_lt | apply Qlt_not_le].
Qed.

Lemma Qltb_ge (a b : Q) : Qltb a b = false <-> b <= a.
Proof.
  unfold Qltb. rewrite negb_false_iff, Qle_bool_iff. reflexivity.
Qed.

Lemma Qeqb_eq (a b : Q) : Qeqb a b = true <-> a == b.
Proof. apply Qeq_bool_iff. Qed.

Lemma Qeqb_neq (a b : Q) : Qeqb a b = false <-> ~ a == b.
Proof.
  rewrite <- not_true_iff_false. unfold Qeqb. rewrite Qeq_bool_iff.
  reflexivity.
Qed.

(** ** The run never raises *)

Lemma gp_pct_cases (a : Assumptions) :
  (0 < turnover a /\ gp_pct a = Fin (gp_total a / turnover a))
  \/ (turnover a <= 0 /\ gp_pct a = NaN).
Proof.
  unfold gp_pct. destruct (Qltb 0 (turnover a)) eqn:Hpos.
  - apply Qltb_lt in Hpos. left. split; [exact Hpos|].
    unfold py_div. destruct (Qeqb (turnover a) 0) eqn:Hz; [|reflexivity].
    apply Qeqb_eq in Hz. rewrite Hz in Hpos.
    exfalso. exact (Qlt_irrefl 0 Hpos).
  - apply Qltb_ge in Hpos. right. split; [exact Hpos|reflexivity].
Qed.

Lemma be_sales_cases (a : Assumptions) :
  (exists m, gp_pct a = Fin m /\ 0 < m
             /\ be_sales a = Ok (Fin (opex a / m)))
  \/ ((gp_pct a = NaN \/ exists m, gp_pct a = Fin m /\ m <= 0)
      /\ be_sales a = Ok NaN).
Proof.
  unfold be_sales.
  destruct (gp_pct_cases a) as [[_ ->] | [_ ->]]; cbn.
  - set (m := gp_total a / turnover a).
    destruct (Qltb 0 m) eqn:Hpos.
    + apply Qltb_lt in Hpos.
      assert (Hnz : Qeqb m 0 = false).
      { apply Qeqb_neq. intros Hz. rewrite Hz in Hpos.
        exact (Qlt_irrefl 0 Hpos). }
      left. exists m. unfold py_div. rewrite Hnz. cbn. auto.
    + apply Qltb_ge in Hpos. right. rewrite andb_false_r.
      split; [right; exists m; auto | reflexivity].
  - right. split; [left|]; reflexivity.
Qed.

Lemma be_sales_total (a : Assumptions) : exists be, be_sales a = Ok be.
Proof.
  destruct (be_sales_cases a) as [(m & _ & _ & H) | [_ H]]; eauto.
Qed.

Lemma upl_ok (summer shoulder : Q) :
  upl summer shoulder =
    Ok [1; 1; 1; 1; 1 * (1 + shoulder); 1 * (1 + summer); 1 * (1 + summer);
        1 * (1 + summer); 1 * (1 + shoulder); 1; 1; 1].
Proof. reflexivity. Qed.

Lemma season_of_total (t summer shoulder : Q) :
  exists s, season_of t summer shoulder = Ok s.
Proof.
  unfold season_of, shares. rewrite upl_ok. cbn. eauto.
Qed.

Lemma run_ok (a : Assumptions) :
  exists be season,
    be_sales a = Ok be /\ season_turnover a = Ok season
    /\ run a = Ok (results_of a be season).
Proof.
  destruct (be_sales_total a) as [be Hbe].
  destruct (season_of_total (turnover a) (summer_uplift a)
              (shoulder_uplift a)) as [se Hse].
  exists be, se. unfold run, season_turnover. rewrite Hbe, Hse.
  repeat split.
Qed.

(** ** C1, C2: revenue, gross profit, operating profit *)

(** C1.  Turnover is the sum of the five revenue streams, and each stream
    is the product chain of its inputs; on binary64 the same holds with the
    products and sums taken left to right, as Python evaluates them. *)
Theorem turnover_sum_of_streams (a : Assumptions) :
  turnover a ==
    rev_local_shoes a + rev_local_apparel a + rev_tourist_core a
    + rev_events a + rev_services a
  /\ rev_local_shoes a ==
       inject_Z (pop a) * adult_share a * run_share a * pairs_per_runner a
       * capture_local a * asp_shoes a
  /\ rev_local_apparel a == rev_local_shoes a * attach_apparel a
  /\ rev_tourist_core a ==
       inject_Z (tourist_footfall a) * tourist_conv a * tourist_aov a
  /\ rev_events a == inject_Z (num_events a) * event_sales a
  /\ rev_services a == inject_Z (service_units a) * service_price a
  /\ (exists r, run a = Ok r
        /\ r_turnover r ==
             r_rev_local_shoes r + r_rev_local_apparel r
             + r_rev_tourist_core r + r_rev_events r + r_rev_services r)
  /\ Binary64.turnover a =
       (Binary64.rev_local_shoes a + Binary64.rev_local_apparel a
        + Binary64.rev_tourist_core a + Binary64.rev_events a
        + Binary64.rev_services a)%float.
Proof.
  repeat split; try reflexivity.
  destruct (run_ok a) as (be & se & _ & _ & Hrun).
  exists (results_of a be se). split; [exact Hrun | reflexivity].
Qed.

(** C2.  Gross profit is the sum of its four components, the service
    component being service revenue itself; operating profit is gross
    profit less opex, the sum of the six cost fields. *)
Theorem gross_profit_and_operating_profit (a : Assumptions) :
  gp_total a == gp_shoes a + gp_apparel a + gp_tour a + gp_services a
  /\ gp_shoes a == rev_local_shoes a * gm_shoes a
  /\ gp_apparel a == rev_local_apparel a * gm_apparel a
  /\ gp_tour a == (rev_tourist_core a + rev_events a) * gm_tour a
  /\ gp_services a = rev_services a
  /\ op a == gp_total a - opex a
  /\ opex a ==
       rent a + staff a + utilities a + marketing a + misc a + other a
  /\ (exists r, run a = Ok r
        /\ r_gp_total r ==
             r_gp_shoes r + r_gp_apparel r + r_gp_tour r + r_gp_services r
        /\ r_gp_services r = r_rev_services r
        /\ r_op r == r_gp_total r - r_opex r)
  /\ Binary64.gp_services a = Binary64.rev_services a
  /\ Binary64.op a = (Binary64.gp_total a - Binary64.opex a)%float.
Proof.
  repeat split; try reflexivity.
  destruct (run_ok a) as (be & se & _ & _ & Hrun).
  exists (results_of a be se). repeat split; [exact Hrun | ..]; reflexivity.
Qed.

(** ** C3: the two sentinels *)

Lemma zero_inputs_turnover (a : Assumptions) :
  zero_inputs a -> turnover a == 0.
Proof.
  unfold zero_inputs. intros H.
  destruct H as (Hp & Ha & _ & _ & _ & _ & _ & Hf & _ & _ & He & _ & Hs & _).
  unfold turnover, rev_local_apparel, rev_local_shoes, local_pairs_captured,
    local_pairs, runners, adults, rev_tourist_core, rev_events, rev_services.
  rewrite Hp, Hf, He, Hs. ring.
Qed.

(** C3.  Blended margin is [gp_total / turnover] when turnover is positive
    and the NaN sentinel when turnover is zero; breakeven sales is
    [opex / margin] when the margin is a positive number and the sentinel
    otherwise; with all demand, tourist, event and service inputs at 0 both
    are the sentinel, the run raises nothing, and neither value is zero. *)
Theorem margin_and_breakeven_sentinels (a : Assumptions) :
  (0 < turnover a -> gp_pct a = Fin (gp_total a / turnover a))
  /\ (turnover a == 0 -> gp_pct a = NaN)
  /\ (forall m, gp_pct a = Fin m -> 0 < m ->
        be_sales a = Ok (Fin (opex a / m)))
  /\ ((gp_pct a = NaN \/ exists m, gp_pct a = Fin m /\ m <= 0) ->
        be_sales a = Ok NaN)
  /\ (gp_pct a = NaN \/ exists m, gp_pct a = Fin m)
  /\ (zero_inputs a ->
        turnover a == 0 /\ gp_pct a = NaN /\ be_sales a = Ok NaN
        /\ ~ is_zero (gp_pct a)
        /\ exists r, run a = Ok r /\ r_gp_pct r = NaN /\ r_be_sales r = NaN).
Proof.
  assert (Hzero : turnover a == 0 -> gp_pct a = NaN).
  { intros Hz. destruct (gp_pct_cases a) as [[Hpos _] | [_ H]]; [|exact H].
    rewrite Hz in Hpos. exfalso. exact (Qlt_irrefl 0 Hpos). }
  assert (Hnan : (gp_pct a = NaN \/ exists m, gp_pct a = Fin m /\ m <= 0) ->
                 be_sales a = Ok NaN).
  { intros Hc.
    destruct (be_sales_cases a) as [(m & Hm & Hpos & _) | [_ H]]; [|exact H].
    exfalso. destruct Hc as [Hn | (m' & Hm' & Hle)].
    - rewrite Hn in Hm. discriminate.
    - rewrite Hm' in Hm. injection Hm as ->.
      exact (Qlt_not_le _ _ Hpos Hle). }
  repeat apply conj.
  - intros Hpos. destruct (gp_pct_cases a) as [[_ H] | [Hle _]]; [exact H|].
    exfalso. exact (Qlt_not_le _ _ Hpos Hle).
  - exact Hzero.
  - intros m Hm Hpos.
    destruct (be_sales_cases a) as [(m' & Hm' & _ & H) | [Hc _]].
    + rewrite Hm in Hm'. injection Hm' as <-. exact H.
    + exfalso. destruct Hc as [Hn | (m' & Hm' & Hle)].
      * rewrite Hn in Hm. discriminate.
      * rewrite Hm in Hm'. injection Hm' as <-.
        exact (Qlt_not_le _ _ Hpos Hle).
  - exact Hnan.
  - destruct (gp_pct_cases a) as [[_ H] | [_ H]]; eauto.
  - intros Hz. pose proof (zero_inputs_turnover a Hz) as Ht.
    pose proof (Hzero Ht) as Hg.
    pose proof (Hnan (or_introl Hg)) as Hb.
    split; [exact Ht|]. split; [exact Hg|]. split; [exact Hb|].
    split; [rewrite Hg; simpl; tauto|].
    destruct (run_ok a) as (be & se & Hbe & _ & Hrun).
    exists (results_of a be se). split; [exact Hrun|].
    split; [exact Hg|]. simpl. rewrite Hb in Hbe. injection Hbe as <-.
    reflexivity.
Qed.

(** The Base record has a positive turnover and a positive margin; the
    all-zero demand record has both ratios at the sentinel. *)
Lemma margin_and_breakeven_sentinels_witness :
  (0 < turnover base_assumptions
   /\ gp_pct base_assumptions =
        Fin (gp_total base_assumptions / turnover base_assumptions)
   /\ be_sales base_assumptions =
        Ok (Fin (opex base_assumptions
                 / (gp_total base_assumptions / turnover base_assumptions))))
  /\ (zero_inputs zero_assumptions
      /\ turnover zero_assumptions == 0
      /\ gp_pct zero_assumptions = NaN
      /\ be_sales zero_assumptions = Ok NaN).
Proof.
  split.
  - assert (Hpos : 0 < turnover base_assumptions) by reflexivity.
    destruct (margin_and_breakeven_sentinels base_assumptions)
      as (Hg & _ & Hb & _).
    split; [exact Hpos|]. split; [exact (Hg Hpos)|].
    apply (Hb _ (Hg Hpos)). reflexivity.
  - assert (Hz : zero_inputs zero_assumptions).
    { unfold zero_inputs, zero_assumptions. simpl.
      repeat split; reflexivity. }
    destruct (margin_and_breakeven_sentinels zero_assumptions)
      as (_ & Hg & _ & Hb & _ & H).
    destruct (H Hz) as (Ht & _).
    split; [exact Hz|]. split; [exact Ht|]. split; [exact (Hg Ht)|].
    apply Hb. left. exact (Hg Ht).
Defined.

(** ** C4, C10: the seasonal allocation *)

Lemma foldl_Qplus (l : list Q) (acc : Q) :
  foldl Qplus acc l == acc + Qsum l.
Proof.
  revert acc. induction l as [|x l IH]; intros acc; simpl.
  - ring.
  - rewrite IH. ring.
Qed.

Lemma np_sum_Qsum (l : list Q) : np_sum l == Qsum l.
Proof. unfold np_sum. rewrite foldl_Qplus. ring. Qed.

Lemma Qsum_map_mul (l : list Q) (c : Q) :
  Qsum (map (fun x => x * c) l) == Qsum l * c.
Proof.
  induction l as [|x l IH]; simpl.
  - ring.
  - rewrite IH. ring.
Qed.

Lemma Qsum_map_div (l : list Q) (c : Q) :
  Qsum (map (fun x => x / c) l) == Qsum l / c.
Proof.
  induction l as [|x l IH]; simpl.
  - unfold Qdiv. ring.
  - rewrite IH. unfold Qdiv. ring.
Qed.

(** With a non-zero sum, numpy's division gives finite shares. *)
Lemma shares_of_fin (u : list Q) :
  ~ np_sum u == 0 ->
  shares_of u = map Fin (map (fun x => x / np_sum u) u).
Proof.
  intros Hnz. unfold shares_of, np_div.
  apply Qeqb_neq in Hnz. rewrite Hnz. rewrite map_map. reflexivity.
Qed.

Lemma scale_fin (ss : list Q) (t : Q) :
  map (fun x => pf_mul x t) (map Fin ss) = map Fin (map (fun x => x * t) ss).
Proof. rewrite !map_map. reflexivity. Qed.

(** The code's weight vector is the specification's, entry by entry. *)
Lemma upl_spec_weights (summer shoulder : Q) :
  exists u, upl summer shoulder = Ok u
            /\ Forall2 Qeq u (spec_weights summer shoulder)
            /\ np_sum u == 12 + 2 * shoulder + 3 * summer.
Proof.
  eexists. split; [apply upl_ok|]. split.
  - unfold spec_weights. repeat constructor; ring.
  - unfold np_sum. simpl. ring.
Qed.

(** The allocation for any uplifts whose weighted total is not zero. *)
Lemma season_of_fin (t summer shoulder : Q) :
  ~ 12 + 2 * shoulder + 3 * summer == 0 ->
  exists u ss,
    upl summer shoulder = Ok u
    /\ Forall2 Qeq u (spec_weights summer shoulder)
    /\ ss = map (fun x => x / np_sum u) u
    /\ shares summer shoulder = Ok (map Fin ss)
    /\ season_of t summer shoulder = Ok (map Fin (map (fun x => x * t) ss))
    /\ Qsum ss == 1
    /\ Qsum (map (fun x => x * t) ss) == t.
Proof.
  intros Hnz.
  destruct (upl_spec_weights summer shoulder) as (u & Hu & Hw & Hs).
  assert (Hnz' : ~ np_sum u == 0) by (rewrite Hs; exact Hnz).
  exists u, (map (fun x => x / np_sum u) u).
  assert (Hsh : shares summer shoulder
                = Ok (map Fin (map (fun x => x / np_sum u) u))).
  { unfold shares. rewrite Hu. cbn. rewrite (shares_of_fin u Hnz').
    reflexivity. }
  assert (Hone : Qsum (map (fun x => x / np_sum u) u) == 1).
  { rewrite Qsum_map_div, <- np_sum_Qsum. field. exact Hnz'. }
  repeat split; try assumption.
  - unfold season_of. rewrite Hsh. cbn. rewrite scale_fin. reflexivity.
  - rewrite Qsum_map_mul, Hone. ring.
Qed.


Lemma uplift_total_nonzero (summer shoulder : Q) :
  0 <= summer -> 0 <= shoulder -> ~ 12 + 2 * shoulder + 3 * summer == 0.
Proof. intros Hs Hh Hz. lra. Qed.

(** C4.  For slider values in range, the weight vector is 1 everywhere
    except [1 + shoulder] in May and September and [1 + summer] in June to
    August; every share is its weight divided by the vector's sum; the
    twelve shares sum to 1; and with both uplifts at 0 each month gets
    [turnover / 12]. *)
Theorem seasonal_allocation_shares (t summer shoulder : Q) :
  0 <= summer <= 0.75 -> 0 <= shoulder <= 0.50 ->
  exists u ss,
    upl summer shoulder = Ok u
    /\ length u = 12%nat
    /\ Forall2 Qeq u (spec_weights summer shoulder)
    /\ shares summer shoulder = Ok (map Fin ss)
    /\ Forall2 (fun s w => s == w / np_sum u) ss u
    /\ Qsum ss == 1
    /\ (summer == 0 -> shoulder == 0 ->
        exists ts, season_of t summer shoulder = Ok (map Fin ts)
                   /\ length ts = 12%nat
                   /\ Forall (fun x => x == t / 12) ts).
Proof.
  intros [Hs _] [Hh _].
  pose proof (uplift_total_nonzero summer shoulder Hs Hh) as Hnz.
  destruct (season_of_fin t summer shoulder Hnz)
    as (u & ss & Hu & Hw & Hss & Hsh & Hse & Hone & _).
  destruct (upl_spec_weights summer shoulder) as (u' & Hu' & _ & Htot).
  rewrite Hu in Hu'. injection Hu' as <-.
  exists u, ss. split; [exact Hu|].
  pose proof Hu as Hshape. rewrite upl_ok in Hshape. injection Hshape as Hshape.
  split; [rewrite <- Hshape; reflexivity|].
  split; [exact Hw|]. split; [exact Hsh|].
  split.
  { rewrite Hss. generalize (np_sum u) as T. clear. intros T.
    induction u as [|x u IH]; simpl; constructor.
    - reflexivity.
    - exact IH. }
  split; [exact Hone|].
  intros Hs0 Hh0.
  assert (H12 : np_sum u == 12) by (rewrite Htot, Hs0, Hh0; ring).
  exists (map (fun x => x * t) ss). split; [exact Hse|].
  rewrite Hss, <- Hshape. split; [reflexivity|].
  rewrite Hshape. simpl. rewrite <- Hshape.
  repeat constructor; rewrite Hshape, H12, ?Hs0, ?Hh0; field.
Qed.

(** The default sliders (0.25 and 0.10), and both sliders at 0. *)
Lemma seasonal_allocation_shares_witness :
  (exists ss, shares 0.25 0.10 = Ok (map Fin ss) /\ Qsum ss == 1)
  /\ (exists ts, season_of 144361.344 0 0 = Ok (map Fin ts)
                 /\ Forall (fun x => x == 144361.344 / 12) ts).
Proof.
  split.
  - destruct (seasonal_allocation_shares 0 0.25 0.10)
      as (u & ss & _ & _ & _ & Hsh & _ & Hone & _).
    + split; discriminate.
    + split; discriminate.
    + exists ss. split; assumption.
  - destruct (seasonal_allocation_shares 144361.344 0 0)
      as (u & ss & _ & _ & _ & _ & _ & _ & H).
    + split; discriminate.
    + split; discriminate.
    + destruct H as (ts & Hts & _ & Hall); [reflexivity | reflexivity |].
      exists ts. split; assumption.
Defined.

(** C10.  For every annual turnover and non-negative uplifts the twelve
    monthly values are finite numbers that add up to the annual turnover. *)
Theorem seasonal_allocation_conserves_turnover (t summer shoulder : Q) :
  0 <= summer -> 0 <= shoulder ->
  exists ts, season_of t summer shoulder = Ok (map Fin ts)
             /\ length ts = 12%nat
             /\ Qsum ts == t.
Proof.
  intros Hs Hh.
  pose proof (uplift_total_nonzero summer shoulder Hs Hh) as Hnz.
  destruct (season_of_fin t summer shoulder Hnz)
    as (u & ss & Hu & _ & Hss & _ & Hse & _ & Hsum).
  exists (map (fun x => x * t) ss). split; [exact Hse|].
  split; [|exact Hsum].
  rewrite upl_ok in Hu. injection Hu as <-. rewrite Hss. reflexivity.
Qed.

(** The Base turnover under the default sliders. *)
Lemma seasonal_allocation_conserves_turnover_witness :
  exists ts, season_of 144361.344 0.25 0.10 = Ok (map Fin ts)
             /\ length ts = 12%nat
             /\ Qsum ts == 144361.344.
Proof.
  apply (seasonal_allocation_conserves_turnover 144361.344 0.25 0.10);
    discriminate.
Defined.

(** ** C7: the preset catalog *)

Local Open Scope string_scope.

(** Lookups in a literal dictionary are lookups in its item list. *)
Lemma dict_lookup (items : list (string * pyval)) (k : string) :
  dict items !! k = assoc items k.
Proof.
  unfold dict. induction items as [|[k' v] rest IH]; simpl.
  - apply lookup_empty.
  - destruct (String.eqb_spec k' k) as [-> | Hne].
    + apply lookup_insert_eq.
    + rewrite lookup_insert_ne by exact Hne. exact IH.
Qed.

Lemma dict_merge_lookup (d o : gmap string pyval) (k : string) :
  dict_merge d o !! k =
    match o !! k with
    | Some v => Some v
    | None => d !! k
    end.
Proof.
  unfold dict_merge. rewrite lookup_union.
  destruct (o !! k), (d !! k); reflexivity.
Qed.

Lemma dict_dom (items : list (string * pyval)) :
  dom (dict items) = list_to_set (items.*1).
Proof. unfold dict. apply dom_list_to_map_L. Qed.

Lemma overrides_dom :
  dom conservative_overrides = overridden_keys
  /\ dom stretch_overrides = overridden_keys.
Proof.
  unfold conservative_overrides, stretch_overrides. rewrite !dict_dom.
  split; reflexivity.
Qed.

(** A merged preset keeps every default it does not override. *)
Lemma dict_merge_inherits (d o : gmap string pyval) (k : string) :
  k ∉ dom o -> dict_merge d o !! k = d !! k.
Proof.
  intros Hk. unfold dict_merge. apply lookup_union_r.
  apply not_elem_of_dom. exact Hk.
Qed.

(** A merged preset has the keys of both dictionaries. *)
Lemma dict_merge_dom (d o : gmap string pyval) :
  dom o ⊆ dom d -> dom (dict_merge d o) = dom d.
Proof.
  intros Hsub. unfold dict_merge. rewrite dom_union_L.
  apply subseteq_union_1_L. exact Hsub.
Qed.

Lemma overridden_keys_in_defaults : overridden_keys ⊆ dom defaults.
Proof.
  apply elem_of_subseteq. intros k Hk. unfold overridden_keys in Hk.
  rewrite elem_of_list_to_set in Hk.
  apply elem_of_dom. unfold defaults. rewrite dict_lookup.
  unfold overridden_list in Hk.
  repeat (apply elem_of_cons in Hk as [-> | Hk]; [vm_compute; eauto |]).
  apply elem_of_nil in Hk. destruct Hk.
Qed.

Lemma presets_lookup (name : string) (p : gmap string pyval) :
  presets !! name = Some p ->
  (name = "Conservative" /\ p = dict_merge defaults conservative_overrides)
  \/ (name = "Base" /\ p = defaults)
  \/ (name = "Stretch" /\ p = dict_merge defaults stretch_overrides).
Proof.
  unfold presets. cbn [list_to_map foldr curry fst snd]. intros H.
  destruct (decide (name = "Conservative")) as [-> | Hc].
  { rewrite lookup_insert_eq in H. injection H as <-. auto. }
  rewrite lookup_insert_ne in H by congruence.
  destruct (decide (name = "Base")) as [-> | Hb].
  { rewrite lookup_insert_eq in H. injection H as <-. auto. }
  rewrite lookup_insert_ne in H by congruence.
  destruct (decide (name = "Stretch")) as [-> | Hs].
  { rewrite lookup_insert_eq in H. injection H as <-. auto. }
  rewrite lookup_insert_ne in H by congruence.
  rewrite lookup_empty in H. discriminate.
Qed.

Lemma presets_base : presets !! "Base" = Some defaults.
Proof.
  unfold presets. cbn [list_to_map foldr curry fst snd].
  rewrite lookup_insert_ne by discriminate. apply lookup_insert_eq.
Qed.

(** Rewrite every dictionary lookup of the goal into a list lookup. *)
Ltac dict_lookups :=
  unfold sidebar, get_int, get_float, getitem;
  rewrite ?dict_merge_lookup;
  unfold defaults, conservative_overrides, stretch_overrides;
  rewrite ?dict_lookup.

Lemma sidebar_defaults : sidebar defaults = Ok base_assumptions.
Proof. dict_lookups. vm_compute. reflexivity. Qed.

Lemma sidebar_total (name : string) (p : gmap string pyval) :
  presets !! name = Some p -> exists a, sidebar p = Ok a.
Proof.
  intros Hp.
  destruct (presets_lookup name p Hp) as [[_ ->] | [[_ ->] | [_ ->]]];
    eexists; dict_lookups; vm_compute; reflexivity.
Qed.

Lemma NoDup_strings (l : list string) :
  bool_decide (NoDup l) = true -> NoDup l.
Proof. intros H. apply bool_decide_eq_true in H. exact H. Qed.

(** C7.  The catalog has exactly the three names; Base is the defaults
    dictionary; every preset has all 25 keys (the sidebar reads it without
    a KeyError) and agrees with the defaults outside the seven overridden
    keys; Conservative and Stretch differ from the defaults on each of the
    seven. *)
Theorem preset_catalog :
  dom presets = list_to_set ["Conservative"; "Base"; "Stretch"]
  /\ size presets = 3%nat
  /\ presets !! "Base" = Some defaults
  /\ size defaults = 25%nat
  /\ (forall name p, presets !! name = Some p ->
        dom p = dom defaults
        /\ (exists a, sidebar p = Ok a)
        /\ forall k, k ∉ overridden_keys -> p !! k = defaults !! k)
  /\ (forall name p k, presets !! name = Some p -> name <> "Base" ->
        k ∈ overridden_keys -> p !! k <> defaults !! k).
Proof.
  destruct overrides_dom as [Hdc Hds].
  pose proof overridden_keys_in_defaults as Hsub.
  assert (Hdom : dom presets
                 = list_to_set ["Conservative"; "Base"; "Stretch"]).
  { unfold presets. rewrite dom_list_to_map_L. reflexivity. }
  split; [exact Hdom|].
  split.
  { rewrite <- size_dom, Hdom. rewrite size_list_to_set; [reflexivity|].
    apply NoDup_strings. vm_compute. reflexivity. }
  split; [exact presets_base|].
  split.
  { rewrite <- size_dom. unfold defaults. rewrite dict_dom.
    rewrite size_list_to_set; [reflexivity|].
    apply NoDup_strings. vm_compute. reflexivity. }
  split.
  - intros name p Hp.
    split; [|split; [exact (sidebar_total name p Hp)|]];
      destruct (presets_lookup name p Hp) as [[_ ->] | [[_ ->] | [_ ->]]].
    + apply dict_merge_dom. rewrite Hdc. exact Hsub.
    + reflexivity.
    + apply dict_merge_dom. rewrite Hds. exact Hsub.
    + intros k Hk. apply dict_merge_inherits. rewrite Hdc. exact Hk.
    + reflexivity.
    + intros k Hk. apply dict_merge_inherits. rewrite Hds. exact Hk.
  - intros name p k Hp Hnb Hk.
    unfold overridden_keys in Hk. rewrite elem_of_list_to_set in Hk.
    unfold overridden_list in Hk.
    destruct (presets_lookup name p Hp) as [[_ ->] | [[-> _] | [_ ->]]];
      [| congruence |];
      repeat (apply elem_of_cons in Hk as [-> | Hk];
              [dict_lookups; vm_compute; discriminate |]);
      apply elem_of_nil in Hk; destruct Hk.
Qed.

(** Stretch keeps the default rent; Conservative changes staff. *)
Lemma preset_catalog_witness :
  dom (dict_merge defaults stretch_overrides) = dom defaults
  /\ dict_merge defaults stretch_overrides !! "rent" = defaults !! "rent"
  /\ dict_merge defaults conservative_overrides !! "staff"
     <> defaults !! "staff".
Proof.
  destruct preset_catalog as (_ & _ & _ & _ & Hall & Hdiff).
  destruct (Hall "Stretch" (dict_merge defaults stretch_overrides))
    as (Hd & _ & Hk).
  { unfold presets. cbn [list_to_map foldr curry fst snd].
    rewrite !lookup_insert_ne by discriminate. apply lookup_insert_eq. }
  split; [exact Hd|]. split.
  - apply Hk. unfold overridden_keys. rewrite elem_of_list_to_set.
    unfold overridden_list. rewrite !elem_of_cons, elem_of_nil.
    intros H. repeat (destruct H as [H | H]; [discriminate H|]). exact H.
  - apply (Hdiff "Conservative").
    + unfold presets. cbn [list_to_map foldr curry fst snd].
      apply lookup_insert_eq.
    + discriminate.
    + unfold overridden_keys. rewrite elem_of_list_to_set.
      unfold overridden_list. rewrite !elem_of_cons. auto 10.
Defined.

Local Close Scope string_scope.

(** ** C6: the Base example, end to end *)

(** C6.  The untouched sidebar on the Base preset yields the default
    record, and the chain gives adults 7088, runners 2126.4, local pairs
    1488.48, captured pairs 595.392, shoe revenue 77400.96, apparel revenue
    30960.384 and opex 64000.  On binary64 every figure is the double
    nearest to the stated decimal, except apparel revenue, which is within
    the allowed relative tolerance of 1e-9 of it. *)
Theorem base_preset_chain :
  presets !! "Base"%string = Some defaults
  /\ sidebar defaults = Ok base_assumptions
  /\ adults base_assumptions == 7088
  /\ runners base_assumptions == 2126.4
  /\ local_pairs base_assumptions == 1488.48
  /\ local_pairs_captured base_assumptions == 595.392
  /\ rev_local_shoes base_assumptions == 77400.96
  /\ rev_local_apparel base_assumptions == 30960.384
  /\ opex base_assumptions == 64000
  /\ fmt_gbp (OFloat (Fin (rev_local_shoes base_assumptions)))
     = "£77,401"%string
  /\ fmt_gbp (OFloat (Fin (rev_local_apparel base_assumptions)))
     = "£30,960"%string
  /\ Binary64.adults base_assumptions = Binary64.of_decimal 7088
  /\ Binary64.runners base_assumptions = Binary64.of_decimal 2126.4
  /\ Binary64.local_pairs base_assumptions = Binary64.of_decimal 1488.48
  /\ Binary64.local_pairs_captured base_assumptions
     = Binary64.of_decimal 595.392
  /\ Binary64.rev_local_shoes base_assumptions
     = Binary64.of_decimal 77400.96
  /\ Binary64.close (Binary64.rev_local_apparel base_assumptions)
       (Binary64.of_decimal 30960.384) = true
  /\ Binary64.opex base_assumptions = Binary64.of_decimal 64000.
Proof.
  split; [exact presets_base|].
  split; [exact sidebar_defaults|].
  repeat split; vm_compute; reflexivity.
Qed.

(** ** The zero-demand record on binary64 *)

(** On binary64 the zero-demand record also gives NaN for both ratios. *)
Example zero_demand_binary64 :
  PrimFloat.is_nan (Binary64.gp_pct zero_assumptions) = true
  /\ (exists x, Binary64.be_sales zero_assumptions = Ok x
                /\ PrimFloat.is_nan x = true).
Proof.
  split; [vm_compute; reflexivity|].
  eexists. split; vm_compute; reflexivity.
Qed.

(** ** C5: rendering *)

Lemma round_half_even_nearest (q : Q) :
  Qabs (q - inject_Z (round_half_even q)) <= 1 # 2.
Proof.
  apply Qabs_Qle_condition. unfold round_half_even. cbv zeta.
  pose proof (Qfloor_le q) as Hlo. pose proof (Qlt_floor q) as Hhi.
  assert (Hup : inject_Z (Qfloor q + 1) == inject_Z (Qfloor q) + 1)
    by (rewrite inject_Z_plus; reflexivity).
  rewrite Hup in Hhi.
  destruct (Qltb (q - inject_Z (Qfloor q)) (1 # 2)) eqn:H1.
  { apply Qltb_lt in H1. revert Hlo Hhi H1.
    generalize (inject_Z (Qfloor q)). intros x Hlo Hhi H1. split; lra. }
  apply Qltb_ge in H1.
  destruct (Qltb (1 # 2) (q - inject_Z (Qfloor q))) eqn:H2.
  { rewrite Hup. revert Hlo Hhi H1.
    generalize (inject_Z (Qfloor q)). intros x Hlo Hhi H1. split; lra. }
  apply Qltb_ge in H2.
  destruct (Z.even (Qfloor q)); rewrite ?Hup; revert Hlo Hhi H1 H2;
    generalize (inject_Z (Qfloor q)); intros x Hlo Hhi H1 H2; split; lra.
Qed.

Lemma uint_comma_free (d : Decimal.uint) :
  comma_free (list_ascii_of_string (NilEmpty.string_of_uint d)).
Proof.
  induction d; simpl; constructor; try exact IHd; discriminate.
Qed.

Lemma digits_comma_free (n : N) :
  comma_free (list_ascii_of_string (digits n)).
Proof.
  unfold digits, NilZero.string_of_uint.
  destruct (N.to_uint n) eqn:E; try (rewrite <- E; apply uint_comma_free).
  repeat constructor. discriminate.
Qed.

Lemma not_comma_true (c : ascii) : c <> ","%char -> not_comma c = true.
Proof.
  intros H. unfold not_comma. apply negb_true_iff.
  apply Ascii.eqb_neq. exact H.
Qed.

Lemma commas_rev_strip (ds : list ascii) (k : nat) :
  comma_free ds -> List.filter not_comma (commas_rev k ds) = ds.
Proof.
  intros H. revert k. induction H as [|d ds Hd _ IH]; intros k; simpl.
  - reflexivity.
  - destruct k as [|[|[|[|k]]]]; simpl; rewrite (not_comma_true d Hd), IH;
      reflexivity.
Qed.

Lemma comma_free_rev (l : list ascii) : comma_free l -> comma_free (rev l).
Proof. unfold comma_free. rewrite !List.Forall_forall. intros H c Hc.
  apply H. apply in_rev. exact Hc. Qed.

Lemma strip_group3 (s : string) :
  comma_free (list_ascii_of_string s) -> strip_commas (group3 s) = s.
Proof.
  intros H. unfold strip_commas, group3.
  rewrite list_ascii_of_string_of_list_ascii, filter_rev.
  rewrite commas_rev_strip by (apply comma_free_rev; exact H).
  rewrite rev_involutive. apply string_of_list_ascii_of_string.
Qed.

Lemma commas_rev_positions (ds : list ascii) (k i : nat) (c : ascii) :
  comma_free ds -> (k <= 3)%nat ->
  nth_error (commas_rev k ds) i = Some c ->
  (c = ","%char <-> ((i + k) mod 4 = 3)%nat).
Proof.
  intros H. revert k i. induction H as [|d ds Hd _ IH]; intros k i Hk Hc.
  - destruct i; discriminate.
  - assert (Hk' : k = 0%nat \/ k = 1%nat \/ k = 2%nat \/ k = 3%nat) by lia.
    destruct Hk' as [-> | [-> | [-> | ->]]]; simpl in Hc.
    + destruct i as [|i]; simpl in Hc.
      * injection Hc as <-. split; [intros; contradiction | discriminate].
      * rewrite (IH 1%nat i) by (auto; lia).
        replace (S i + 0)%nat with (i + 1)%nat by lia. reflexivity.
    + destruct i as [|i]; simpl in Hc.
      * injection Hc as <-. split; [intros; contradiction | discriminate].
      * rewrite (IH 2%nat i) by (auto; lia).
        replace (S i + 1)%nat with (i + 2)%nat by lia. reflexivity.
    + destruct i as [|i]; simpl in Hc.
      * injection Hc as <-. split; [intros; contradiction | discriminate].
      * rewrite (IH 3%nat i) by (auto; lia).
        replace (S i + 2)%nat with (i + 3)%nat by lia. reflexivity.
    + destruct i as [|[|i]]; simpl in Hc.
      * injection Hc as <-. split; reflexivity.
      * injection Hc as <-. split; [intros; contradiction | discriminate].
      * rewrite (IH 1%nat i) by (auto; lia).
        replace (S (S i) + 3)%nat with (i + 1 + 1 * 4)%nat by lia.
        rewrite Nat.Div0.mod_add. reflexivity.
Qed.

Lemma group3_positions (s : string) (i : nat) (c : ascii) :
  comma_free (list_ascii_of_string s) ->
  from_right (group3 s) i = Some c ->
  (c = ","%char <-> (i mod 4 = 3)%nat).
Proof.
  intros H Hc. unfold from_right, group3 in Hc.
  rewrite list_ascii_of_string_of_list_ascii, rev_involutive in Hc.
  rewrite (commas_rev_positions _ 0 i c (comma_free_rev _ H)) by (auto; lia).
  rewrite Nat.add_0_r. reflexivity.
Qed.

Lemma parse_digits_digits (n : N) : parse_digits (digits n) = Some n.
Proof.
  unfold parse_digits, digits. rewrite NilZero.usu.
  - simpl. rewrite DecimalN.Unsigned.of_to. reflexivity.
  - destruct n; [discriminate | apply DecimalPos.Unsigned.to_uint_nonnil].
Qed.

Lemma hd_rev_last {A : Type} (l : list A) (d : A) :
  hd d (rev l) = List.last l d.
Proof.
  induction l as [|x l _] using rev_ind; [reflexivity|].
  rewrite rev_app_distr, last_last. reflexivity.
Qed.

Lemma last_cons_nonempty {A : Type} (x : A) (l : list A) (d : A) :
  l <> [] -> List.last (x :: l) d = List.last l d.
Proof. destruct l; [congruence | reflexivity]. Qed.

Lemma commas_rev_nonempty (d : ascii) (ds : list ascii) (k : nat) :
  commas_rev k (d :: ds) <> [].
Proof. destruct k as [|[|[|[|k]]]]; discriminate. Qed.

Lemma commas_rev_cons (d : ascii) (ds : list ascii) (k : nat) :
  commas_rev k (d :: ds) =
    if Nat.eqb k 3 then ","%char :: d :: commas_rev 1 ds
    else d :: commas_rev (S k) ds.
Proof. destruct k as [|[|[|[|k]]]]; reflexivity. Qed.

Lemma commas_rev_last (ds : list ascii) (k : nat) (d0 : ascii) :
  List.last (commas_rev k ds) d0 = List.last ds d0.
Proof.
  revert k. induction ds as [|d ds IH]; intros k; [reflexivity|].
  destruct ds as [|d' ds].
  - destruct k as [|[|[|[|k]]]]; reflexivity.
  - rewrite (last_cons_nonempty d (d' :: ds)) by discriminate.
    rewrite (commas_rev_cons d). destruct (Nat.eqb k 3).
    + rewrite (last_cons_nonempty ","%char) by discriminate.
      rewrite last_cons_nonempty by apply commas_rev_nonempty. apply IH.
    + rewrite last_cons_nonempty by apply commas_rev_nonempty. apply IH.
Qed.

Lemma group3_head (s : string) (d0 : ascii) :
  hd d0 (list_ascii_of_string (group3 s)) = hd d0 (list_ascii_of_string s).
Proof.
  unfold group3. rewrite list_ascii_of_string_of_list_ascii.
  rewrite hd_rev_last, commas_rev_last, <- hd_rev_last, rev_involutive.
  reflexivity.
Qed.

Lemma digits_single (m : N) : (m < 10)%N -> String.length (digits m) = 1%nat.
Proof.
  intros H.
  assert (Hm : (m = 0 \/ m = 1 \/ m = 2 \/ m = 3 \/ m = 4 \/ m = 5
                \/ m = 6 \/ m = 7 \/ m = 8 \/ m = 9)%N) by lia.
  repeat (destruct Hm as [-> | Hm]; [reflexivity|]). subst m. reflexivity.
Qed.

Lemma round_half_even_floor (q : Q) :
  round_half_even q = Qfloor q \/ round_half_even q = (Qfloor q + 1)%Z.
Proof.
  unfold round_half_even. cbv zeta.
  destruct (Qltb _ _); [auto|].
  destruct (Qltb _ _); [auto|].
  destruct (Z.even _); auto.
Qed.

Lemma round_error (q : Q) :
  - (1 # 2) <= q - inject_Z (round_half_even q) <= 1 # 2.
Proof. apply Qabs_Qle_condition. apply round_half_even_nearest. Qed.

(** At a tie the even neighbour is taken. *)
Lemma round_half_even_tie (q : Q) :
  Qabs (q - inject_Z (round_half_even q)) == 1 # 2 ->
  Z.even (round_half_even q) = true.
Proof.
  unfold round_half_even. cbv zeta.
  pose proof (Qfloor_le q) as Hlo. pose proof (Qlt_floor q) as Hhi.
  assert (Hup : inject_Z (Qfloor q + 1) == inject_Z (Qfloor q) + 1)
    by (rewrite inject_Z_plus; reflexivity).
  rewrite Hup in Hhi.
  destruct (Qltb (q - inject_Z (Qfloor q)) (1 # 2)) eqn:H1.
  { apply Qltb_lt in H1. intros Ht. exfalso.
    rewrite Qabs_pos in Ht by lra. lra. }
  apply Qltb_ge in H1.
  destruct (Qltb (1 # 2) (q - inject_Z (Qfloor q))) eqn:H2.
  { apply Qltb_lt in H2. rewrite Hup. intros Ht. exfalso.
    rewrite Qabs_neg in Ht by lra. lra. }
  intros _. destruct (Z.even (Qfloor q)) eqn:He; [exact He|].
  rewrite Z.even_add, He. reflexivity.
Qed.

(** The rounding is pinned down: [n] is the result exactly when it is
    nearer than one half, or exactly one half away and even. *)
Lemma round_half_even_iff (q : Q) (n : Z) :
  round_half_even q = n <->
  Qabs (q - inject_Z n) < 1 # 2
  \/ (Qabs (q - inject_Z n) == 1 # 2 /\ Z.even n = true).
Proof.
  split.
  - intros <-. pose proof (round_half_even_nearest q) as H.
    apply Qle_lt_or_eq in H as [H | H]; [left; exact H|].
    right. split; [exact H | apply round_half_even_tie; exact H].
  - intros H. set (r := round_half_even q).
    pose proof (round_error q) as Hr. fold r in Hr.
    pose proof (round_half_even_tie q) as Ht. fold r in Ht.
    assert (Hd : q - inject_Z n == (q - inject_Z r) + inject_Z (r - n)).
    { unfold Z.sub. rewrite inject_Z_plus, inject_Z_opp. ring. }
    destruct H as [H | [H He]].
    + apply Qabs_Qlt_condition in H.
      clearbody r.
      assert (L : (-1 # 1) < inject_Z (r - n)) by lra.
      assert (U : inject_Z (r - n) < (1 # 1)) by lra.
      change (-1 # 1) with (inject_Z (-1)) in L.
      change (1 # 1) with (inject_Z 1) in U.
      rewrite <- Zlt_Qlt in L, U. lia.
    + assert (Hn : - (1 # 2) <= q - inject_Z n <= 1 # 2).
      { apply Qabs_Qle_condition. rewrite H. apply Qle_refl. }
      clearbody r.
      assert (L : (-1 # 1) <= inject_Z (r - n)) by lra.
      assert (U : inject_Z (r - n) <= (1 # 1)) by lra.
      change (-1 # 1) with (inject_Z (-1)) in L.
      change (1 # 1) with (inject_Z 1) in U.
      rewrite <- Zle_Qle in L, U.
      destruct (Z.eq_dec r n) as [E | E]; [exact E|]. exfalso.
      assert (Hodd : Z.even r = negb (Z.even n)).
      { assert (C : r = (n + 1)%Z \/ r = (n - 1)%Z) by lia.
        destruct C as [-> | ->].
        - rewrite Z.even_add. rewrite He. reflexivity.
        - rewrite Z.even_sub. rewrite He. reflexivity. }
      rewrite He in Hodd. simpl in Hodd.
      assert (Hq : Qabs (q - inject_Z r) == 1 # 2).
      { assert (C : r = (n + 1)%Z \/ r = (n - 1)%Z) by lia.
        assert (Hrn : inject_Z (r - n) == 1 \/ inject_Z (r - n) == - (1)).
        { destruct C as [-> | ->]; [left | right].
          - replace (n + 1 - n)%Z with 1%Z by lia. reflexivity.
          - replace (n - 1 - n)%Z with (-1)%Z by lia. reflexivity. }
        assert (Hc : q - inject_Z n == 1 # 2 \/ q - inject_Z n == - (1 # 2)).
        { revert H. apply Qabs_case; intros ? ?; [left | right]; lra. }
        destruct Hrn as [Hrn | Hrn]; rewrite Hrn in Hd;
          destruct Hc as [Hc | Hc]; apply Qabs_case; intros ?; lra. }
      apply Ht in Hq. congruence.
Qed.

Lemma sign_of_neg (q : Q) : q < 0 -> sign_of q = "-"%string.
Proof.
  intros H. unfold sign_of. destruct (Qltb q 0) eqn:E; [reflexivity|].
  apply Qltb_ge in E. lra.
Qed.

Lemma sign_of_nonneg (q : Q) : 0 <= q -> sign_of q = EmptyString.
Proof.
  intros H. unfold sign_of. destruct (Qltb q 0) eqn:E; [|reflexivity].
  apply Qltb_lt in E. lra.
Qed.

(** ** Converting an int to a float *)

Lemma float_of_int_small (z : Z) :
  (Z.abs z <= 2 ^ 53)%Z -> float_of_int z = Ok (inject_Z z).
Proof.
  intros H. unfold float_of_int. cbv zeta.
  destruct (Z.leb_spec (Z.log2 (Z.abs z) + 1 - 53)%Z 0%Z) as [_ | Hs];
    [reflexivity|].
  assert (Hpos : (0 < Z.abs z)%Z).
  { destruct (Z.eq_dec (Z.abs z) 0%Z) as [E | E]; [|lia].
    rewrite E in Hs. simpl in Hs. lia. }
  pose proof (Z.log2_spec _ Hpos) as [Hlo _].
  assert (Hp : (2 ^ 53 <= 2 ^ Z.log2 (Z.abs z))%Z)
    by (apply Z.pow_le_mono_r; lia).
  assert (E : Z.abs z = (2 ^ 53)%Z) by lia.
  assert (C : z = (2 ^ 53)%Z \/ z = (- 2 ^ 53)%Z) by lia.
  destruct C as [-> | ->]; vm_compute; reflexivity.
Qed.

(** The double of a long int: its size, and the leading 53 bits kept. *)
Lemma float_of_int_large (z : Z) :
  let m := Z.abs z in
  let s := (Z.log2 m - 52)%Z in
  (2 ^ 53 <= m)%Z ->
  (0 < s)%Z
  /\ (2 ^ 52 <= round_half_even (m # Z.to_pos (2 ^ s)))%Z
  /\ Qabs (inject_Z m - inject_Z (round_half_even (m # Z.to_pos (2 ^ s))
                                   * 2 ^ s))
     <= inject_Z (2 ^ s) * (1 # 2).
Proof.
  intros m s Hm.
  assert (Hpos : (0 < m)%Z) by (pose proof (Z.pow_pos_nonneg 2 53 eq_refl); lia).
  pose proof (Z.log2_spec _ Hpos) as [Hlo Hhi].
  assert (Hl : (53 <= Z.log2 m)%Z).
  { apply Z.log2_le_pow2; [exact Hpos | exact Hm]. }
  assert (Hs : (0 < s)%Z) by (unfold s; lia).
  assert (Hps : (0 < 2 ^ s)%Z) by (apply Z.pow_pos_nonneg; lia).
  assert (Hsplit : (2 ^ Z.log2 m = 2 ^ 52 * 2 ^ s)%Z).
  { rewrite <- Z.pow_add_r by lia. f_equal. unfold s. lia. }
  set (d := Z.to_pos (2 ^ s)).
  assert (Hd : Zpos d = (2 ^ s)%Z) by (unfold d; rewrite Z2Pos.id; lia).
  set (q := m # d).
  assert (Hq : q * inject_Z (2 ^ s) == inject_Z m).
  { unfold q, Qeq, Qmult, inject_Z. cbn [Qnum Qden].
    rewrite Pos.mul_1_r, Hd. ring. }
  split; [exact Hs|]. split.
  - assert (Hf : (2 ^ 52 <= Qfloor q)%Z).
    { unfold q, Qfloor. rewrite Hd. apply Z.div_le_lower_bound; lia. }
    destruct (round_half_even_floor q) as [-> | ->]; lia.
  - pose proof (round_error q) as [H1 H2].
    rewrite inject_Z_mult.
    assert (Hpq : 0 < inject_Z (2 ^ s)).
    { change 0 with (inject_Z 0). rewrite <- Zlt_Qlt. exact Hps. }
    apply Qabs_Qle_condition.
    generalize dependent (inject_Z (round_half_even q)). intros r H1 H2.
    generalize dependent (inject_Z (2 ^ s)). intros p Hq Hpq.
    generalize dependent (inject_Z m). intros im Hq.
    clearbody q. split.
    + assert (0 <= ((q - r) + (1 # 2)) * p) by (apply Qmult_le_0_compat; lra).
      lra.
    + assert (0 <= ((1 # 2) - (q - r)) * p) by (apply Qmult_le_0_compat; lra).
      lra.
Qed.

Lemma float_of_int_overflow (z : Z) :
  (2 ^ 1024 <= Z.abs z)%Z -> float_of_int z = Raise OverflowError.
Proof.
  intros H.
  assert (Hm : (2 ^ 53 <= Z.abs z)%Z).
  { etransitivity; [|exact H]. apply Z.pow_le_mono_r; lia. }
  destruct (float_of_int_large z Hm) as (Hs & Hr & _).
  assert (Hpos : (0 < Z.abs z)%Z) by (pose proof (Z.pow_pos_nonneg 2 53 eq_refl); lia).
  assert (Hl : (1024 <= Z.log2 (Z.abs z))%Z).
  { apply Z.log2_le_pow2; [exact Hpos | exact H]. }
  unfold float_of_int. cbv zeta.
  replace (Z.log2 (Z.abs z) + 1 - 53)%Z with (Z.log2 (Z.abs z) - 52)%Z by lia.
  destruct (Z.leb_spec (Z.log2 (Z.abs z) - 52)%Z 0%Z) as [Hle | _]; [lia|].
  set (s := (Z.log2 (Z.abs z) - 52)%Z) in *.
  set (r := round_half_even _) in *.
  destruct (Z.leb_spec (2 ^ 1024)%Z (r * 2 ^ s)%Z) as [_ | Hlt]; [reflexivity|].
  exfalso.
  assert (Hps : (0 < 2 ^ s)%Z) by (apply Z.pow_pos_nonneg; lia).
  assert (Hsplit : (2 ^ Z.log2 (Z.abs z) = 2 ^ 52 * 2 ^ s)%Z).
  { rewrite <- Z.pow_add_r by lia. f_equal. unfold s. lia. }
  assert (Hp : (2 ^ 1024 <= 2 ^ Z.log2 (Z.abs z))%Z)
    by (apply Z.pow_le_mono_r; lia).
  assert (Hv : (2 ^ 52 * 2 ^ s <= r * 2 ^ s)%Z)
    by (apply Z.mul_le_mono_nonneg_r; lia).
  lia.
Qed.

(** The double of an int is an int: a multiple of the spacing of doubles
    at that size, at most half a spacing away. *)
Lemma float_of_int_nearest (z : Z) (x : Q) :
  float_of_int z = Ok x ->
  exists v : Z,
    x = inject_Z v
    /\ (Z.abs v < 2 ^ 1024)%Z
    /\ ((Z.abs z <= 2 ^ 53)%Z -> v = z)
    /\ ((2 ^ 53 <= Z.abs z)%Z ->
        (2 ^ (Z.log2 (Z.abs z) - 52) | v)%Z
        /\ (2 * Z.abs (v - z) <= 2 ^ (Z.log2 (Z.abs z) - 52))%Z).
Proof.
  intros Hx.
  destruct (Z.le_gt_cases (Z.abs z) (2 ^ 53)%Z) as [Hsm | Hbig].
  - rewrite (float_of_int_small z Hsm) in Hx. injection Hx as <-.
    exists z. split; [reflexivity|].
    split. { eapply Z.le_lt_trans; [exact Hsm|]. reflexivity. }
    split; [auto|]. intros Hge.
    assert (E : Z.abs z = (2 ^ 53)%Z) by lia.
    rewrite E. change (Z.log2 (2 ^ 53) - 52)%Z with 1%Z.
    split.
    + exists (z / 2)%Z.
      assert (C : z = (2 ^ 53)%Z \/ z = (- 2 ^ 53)%Z) by lia.
      destruct C as [-> | ->]; reflexivity.
    + replace (z - z)%Z with 0%Z by lia. simpl. lia.
  - assert (Hm : (2 ^ 53 <= Z.abs z)%Z) by lia.
    destruct (float_of_int_large z Hm) as (Hs & Hr & Herr).
    unfold float_of_int in Hx. cbv zeta in Hx.
    replace (Z.log2 (Z.abs z) + 1 - 53)%Z
      with (Z.log2 (Z.abs z) - 52)%Z in Hx by lia.
    set (s := (Z.log2 (Z.abs z) - 52)%Z) in *.
    set (r := round_half_even _) in *.
    destruct (Z.leb_spec s 0%Z) as [Hle | _]; [lia|].
    destruct (Z.leb_spec (2 ^ 1024)%Z (r * 2 ^ s)%Z) as [| Hlt]; [discriminate|].
    injection Hx as <-.
    assert (Hps : (0 < 2 ^ s)%Z) by (apply Z.pow_pos_nonneg; lia).
    assert (Hr0 : (0 <= r * 2 ^ s)%Z) by nia.
    exists (Z.sgn z * (r * 2 ^ s))%Z. split; [reflexivity|].
    split. { rewrite Z.abs_mul. assert (Z.abs (Z.sgn z) <= 1)%Z by lia.
             rewrite (Z.abs_eq (r * 2 ^ s)) by lia. nia. }
    split; [lia|]. intros _. split.
    + exists (Z.sgn z * r)%Z. ring.
    + assert (Hz : (2 * Z.abs (Z.abs z - r * 2 ^ s) <= 2 ^ s)%Z).
      { apply Qabs_Qle_condition in Herr as [H1 H2].
        assert (L : inject_Z (- 2 ^ s)
                    <= inject_Z (2 * (Z.abs z - r * 2 ^ s))).
        { unfold Z.sub. rewrite inject_Z_mult, inject_Z_opp, inject_Z_plus, inject_Z_opp.
          change (inject_Z 2) with 2.
          generalize dependent (inject_Z (Z.abs z)).
          generalize dependent (inject_Z (r * 2 ^ s)).
          generalize dependent (inject_Z (2 ^ s)). intros; lra. }
        assert (U : inject_Z (2 * (Z.abs z - r * 2 ^ s))
                    <= inject_Z (2 ^ s)).
        { unfold Z.sub. rewrite inject_Z_mult, inject_Z_plus, inject_Z_opp.
          change (inject_Z 2) with 2.
          generalize dependent (inject_Z (Z.abs z)).
          generalize dependent (inject_Z (r * 2 ^ s)).
          generalize dependent (inject_Z (2 ^ s)). intros; lra. }
        rewrite <- Zle_Qle in L, U. lia. }
      destruct z as [|p|p]; simpl Z.sgn; simpl Z.abs in *; lia.
Qed.

(** The conversion written out on rationals above and the one read off the
    IEEE rounding of [Double.float_of_int] show the same text, at the
    places where they could part: around 2^53, at ties, and at the largest
    double. *)
Example float_of_int_agrees :
  Forall (fun z =>
            match Double.float_of_int z with
            | Ok f => Double.fmt_gbp f
            | Raise _ => em_dash
            end = fmt_gbp (OInt z))
    [0; 7; -7; 2 ^ 53; 2 ^ 53 + 1; 2 ^ 53 + 2; 2 ^ 53 + 3; - (2 ^ 60 - 3);
     10 ^ 30; 2 ^ 1024 - 2 ^ 970 - 1; 2 ^ 1024 - 2 ^ 970; - 2 ^ 1024;
     10 ^ 400]%Z.
Proof. repeat (constructor; [vm_compute; reflexivity|]). constructor. Qed.

(** On a double the format never raises, so [fmt_gbp] never falls back
    to the em-dash; away from minus zero the text is that of the exact
    value. *)
Lemma fmt_gbp_double_not_em_dash (x : float) : Double.fmt_gbp x <> em_dash.
Proof.
  unfold Double.fmt_gbp. cbn [try_except]. intros H. discriminate H.
Qed.

Lemma fmt_gbp_double_exact (x : float) :
  Double.is_minus_zero x = false ->
  Double.fmt_gbp x = fmt_gbp (OFloat (Double.exact x)).
Proof.
  unfold Double.fmt_gbp, Double.format_f0. intros ->. reflexivity.
Qed.

(** C5, as the code has it.  A finite value is rendered as the pound sign,
    a minus sign exactly when it is negative, and the nearest whole number
    in decimal digits with a comma before every group of three counted from
    the right; the whole number is the nearer neighbour, and at a tie the
    even one.  An int is converted to a float first: up to 2^53 in size it
    is displayed exactly, beyond that only its leading 53 bits count (2^53
    + 1 is displayed as 2^53), and from 2^1024 on the conversion raises
    and the em-dash is returned.  NaN and the infinities format without
    error, as the texts nan, inf and -inf, and minus zero shows its sign:
    on a float the em-dash is never returned.  It appears only when
    formatting raises (None, a string, an int too large for a float), or by
    the callers' own NaN tests: breakeven sales in the caption and the
    table, the margin in the table.  A margin that is a number shows in the
    caption as a percentage with one decimal. *)
Theorem fmt_gbp_rendering :
  (forall q,
     let n := round_half_even q in
     let ds := digits (Z.abs_N n) in
     Qabs (q - inject_Z n) <= 1 # 2
     /\ (forall k, n = k <->
           Qabs (q - inject_Z k) < 1 # 2
           \/ (Qabs (q - inject_Z k) == 1 # 2 /\ Z.even k = true))
     /\ (q < 0 -> sign_of q = "-")
     /\ (0 <= q -> sign_of q = EmptyString)
     /\ fmt_gbp (OFloat (Fin q)) = pound +:+ sign_of q +:+ group3 ds
     /\ strip_commas (group3 ds) = ds
     /\ parse_digits ds = Some (Z.abs_N n)
     /\ (forall i c, from_right (group3 ds) i = Some c ->
           (c = ","%char <-> (i mod 4 = 3)%nat))
     /\ (forall d0, hd d0 (list_ascii_of_string (group3 ds))
                    = hd d0 (list_ascii_of_string ds)))
  /\ (forall z, (Z.abs z <= 2 ^ 53)%Z ->
        fmt_gbp (OInt z) = fmt_gbp (OFloat (Fin (inject_Z z))))
  /\ (forall z x, float_of_int z = Ok x ->
        fmt_gbp (OInt z) = fmt_gbp (OFloat (Fin x))
        /\ exists v : Z,
             x = inject_Z v
             /\ ((2 ^ 53 <= Z.abs z)%Z ->
                 (2 ^ (Z.log2 (Z.abs z) - 52) | v)%Z
                 /\ (2 * Z.abs (v - z) <= 2 ^ (Z.log2 (Z.abs z) - 52))%Z))
  /\ fmt_gbp (OInt (2 ^ 53 + 1)) = fmt_gbp (OInt (2 ^ 53))
  /\ (forall z, (2 ^ 1024 <= Z.abs z)%Z -> fmt_gbp (OInt z) = em_dash)
  /\ fmt_gbp (OFloat NaN) = pound +:+ "nan"
  /\ fmt_gbp (OFloat PosInf) = pound +:+ "inf"
  /\ fmt_gbp (OFloat NegInf) = pound +:+ "-inf"
  /\ fmt_gbp ONone = em_dash
  /\ (forall s, fmt_gbp (OStr s) = em_dash)
  /\ (forall x : float, Double.fmt_gbp x <> em_dash)
  /\ (forall x : float, Double.is_minus_zero x = false ->
        Double.fmt_gbp x = fmt_gbp (OFloat (Double.exact x)))
  /\ Double.fmt_gbp (- 0)%float = pound +:+ "-0"
  /\ be_sales_cell NaN = em_dash
  /\ gp_pct_cell NaN = em_dash
  /\ (forall gp,
        caption_of gp NaN =
          "Blended GP%: " +:+ format_f1 (pf_mul gp 100)
          +:+ "% | Breakeven sales: " +:+ em_dash)
  /\ (forall m b,
        let n := Z.abs_N (round_half_even (m * 100 * 10)) in
        caption_of (Fin m) (Fin b) =
          "Blended GP%: "
          +:+ (sign_of (m * 100) +:+ digits (n / 10) +:+ "."
               +:+ digits (n mod 10))
          +:+ "% | Breakeven sales: " +:+ fmt_gbp (OFloat (Fin b))
        /\ Qabs (m * 100 * 10 - inject_Z (round_half_even (m * 100 * 10)))
           <= 1 # 2
        /\ String.length (digits (n mod 10)) = 1%nat).
Proof.
  split.
  { intros q n ds. pose proof (digits_comma_free (Z.abs_N n)) as Hcf.
    split; [apply round_half_even_nearest|].
    split; [intros k; apply round_half_even_iff|].
    split; [apply sign_of_neg|].
    split; [apply sign_of_nonneg|].
    split; [reflexivity|].
    split; [apply strip_group3; exact Hcf|].
    split; [apply parse_digits_digits|].
    split.
    - intros i c. apply group3_positions. exact Hcf.
    - intros d0. apply group3_head. }
  split.
  { intros z Hz. unfold fmt_gbp, format_obj_f0.
    rewrite (float_of_int_small z Hz). reflexivity. }
  split.
  { intros z x Hx. split.
    - unfold fmt_gbp, format_obj_f0. rewrite Hx. reflexivity.
    - destruct (float_of_int_nearest z x Hx) as (v & Hv & _ & _ & Hbig).
      exists v. split; [exact Hv | exact Hbig]. }
  split; [vm_compute; reflexivity|].
  split.
  { intros z Hz. unfold fmt_gbp, format_obj_f0.
    rewrite (float_of_int_overflow z Hz). reflexivity. }
  do 5 (split; [reflexivity|]).
  split; [exact fmt_gbp_double_not_em_dash|].
  split; [exact fmt_gbp_double_exact|].
  do 4 (split; [reflexivity|]).
  intros m b n. split; [reflexivity|].
  split; [apply round_half_even_nearest|].
  apply digits_single. apply N.mod_lt. discriminate.
Qed.

(** C5 as stated fails: NaN is formatted as text, not as an em-dash, by
    the currency formatter and by the caption alike. *)
Lemma fmt_gbp_nan_counterexample :
  fmt_gbp (OFloat NaN) <> em_dash
  /\ fmt_gbp (OFloat NaN) = "£nan"%string
  /\ gp_pct zero_assumptions = NaN
  /\ caption zero_assumptions
     = Ok "Blended GP%: nan% | Breakeven sales: —"%string.
Proof.
  split; [discriminate|]. repeat split.
Qed.

(** Base shoe revenue, 77400.96, is rendered with one separator, fourth
    from the right; 2.5 rounds to 2 and 3.5 to 4; minus 0.4 keeps its sign;
    1,234,567 as an int is displayed as the same number as a float; the
    int 10^400 is too large for a float; the double 2.5 shows as 2. *)
Lemma fmt_gbp_rendering_witness :
  fmt_gbp (OFloat (Fin 77400.96)) = "£77,401"
  /\ strip_commas "77,401" = "77401"
  /\ from_right "77,401" 3 = Some ","%char
  /\ (3 mod 4 = 3)%nat
  /\ round_half_even 2.5 = 2%Z
  /\ round_half_even 3.5 = 4%Z
  /\ sign_of (- 0.4) = "-"
  /\ fmt_gbp (OInt 1234567) = "£1,234,567"
  /\ fmt_gbp (OInt (10 ^ 400)) = em_dash
  /\ Double.fmt_gbp 2.5%float = "£2".
Proof.
  destruct fmt_gbp_rendering
    as (H & Hsmall & _ & _ & Hover & _ & _ & _ & _ & _ & _ & Hdbl & _).
  destruct (H 77400.96) as (_ & _ & _ & _ & Hf & Hs & _ & Hp & _).
  split; [exact Hf|]. split; [exact Hs|].
  assert (Hc : from_right "77,401" 3 = Some ","%char) by reflexivity.
  split; [exact Hc|].
  split; [apply (Hp 3%nat ","%char Hc); reflexivity|].
  split.
  { destruct (H 2.5) as (_ & Hk & _). apply (Hk 2%Z).
    right. split; reflexivity. }
  split.
  { destruct (H 3.5) as (_ & Hk & _). apply (Hk 4%Z).
    right. split; reflexivity. }
  split.
  { destruct (H (- 0.4)) as (_ & _ & Hneg & _). apply Hneg. reflexivity. }
  split.
  { rewrite (Hsmall 1234567%Z); [reflexivity|].
    apply Z.leb_le. vm_compute. reflexivity. }
  split; [apply Hover; apply Z.leb_le; vm_compute; reflexivity|].
  rewrite (Hdbl 2.5%float); reflexivity.
Defined.

(** ** C8: the sign of the monetary outputs *)

Section Signs.
Import Double.
Local Open Scope float_scope.

Lemma Prim2SF_nan (x : float) : PrimFloat.is_nan x = true <-> Prim2SF x = S754_nan.
Proof.
  unfold Prim2SF. destruct (PrimFloat.is_nan x); [tauto|].
  split; [discriminate|].
  destruct (PrimFloat.is_zero x); [discriminate|].
  destruct (PrimFloat.is_infinity x); [discriminate|].
  destruct (Z.frexp x) as [r e].
  destruct (shr_fexp _ _ _ _ _) as [s e'].
  destruct (shr_m s); discriminate.
Qed.

Lemma never_negative_spec (x : float) :
  Double.never_negative x = sf_never_negative (Prim2SF x).
Proof.
  unfold Double.never_negative. rewrite FloatAxioms.leb_spec.
  change (Prim2SF 0) with (S754_zero false).
  destruct (PrimFloat.is_nan x) eqn:E.
  - apply Prim2SF_nan in E. rewrite E. reflexivity.
  - destruct (Prim2SF x) as [b | b | | b m e] eqn:Es; try reflexivity.
    + destruct b; reflexivity.
    + apply Prim2SF_nan in Es. congruence.
    + destruct b; reflexivity.
Qed.

Lemma unsigned_never_negative (s : spec_float) :
  sf_unsigned s = true -> sf_never_negative s = true.
Proof. destruct s; simpl; auto. Qed.

Lemma round_aux_sign (b : bool) (m e : Z) (l : location) :
  match binary_round_aux prec emax b m e l with
  | S754_nan => True
  | S754_zero c | S754_infinity c | S754_finite c _ _ => c = b
  end.
Proof.
  unfold binary_round_aux.
  destruct (shr_fexp prec emax m e l) as [s1 e1].
  destruct (shr_fexp prec emax _ e1 loc_Exact) as [s2 e2].
  destruct (shr_m s2); [reflexivity | | exact I].
  destruct (Z.leb e2 _); reflexivity.
Qed.


Lemma round_aux_unsigned (m e : Z) (l : location) :
  sf_unsigned (binary_round_aux prec emax false m e l) = true.
Proof.
  pose proof (round_aux_sign false m e l) as H.
  destruct (binary_round_aux prec emax false m e l); simpl; subst; auto.
Qed.







Lemma SFdiv_never_negative (a b : spec_float) :
  sf_never_negative a = true -> sf_positive b = true ->
  sf_never_negative (SF64div a b) = true.
Proof.
  destruct a as [sa | sa | | sa ma ea], b as [sb | sb | | sb mb eb];
    simpl; intros Ha Hb; try reflexivity; try discriminate;
    try (apply negb_true_iff in Ha); try (apply negb_true_iff in Hb);
    subst; try reflexivity.
  destruct (SFdiv_core_binary _ _ _ _ _ _) as [[mz ez] lz].
  apply unsigned_never_negative. apply round_aux_unsigned.
Qed.

Lemma ltb0_positive (x : float) :
  (0 <? x) = true -> sf_positive (Prim2SF x) = true.
Proof.
  rewrite FloatAxioms.ltb_spec. change (Prim2SF 0) with (S754_zero false).
  destruct (Prim2SF x) as [b | b | | b m e]; simpl; try discriminate;
    destruct b; auto; discriminate.
Qed.







Lemma div_never_negative (x y : float) :
  never_negative x = true -> (0 <? y) = true ->
  never_negative (x / y) = true.
Proof.
  rewrite !never_negative_spec, FloatAxioms.div_spec. intros Hx Hy.
  apply SFdiv_never_negative; [exact Hx | apply ltb0_positive; exact Hy].
Qed.








Lemma float_of_int_raises (z : Z) (e : pyexc) :
  float_of_int z = Raise e -> e = OverflowError.
Proof.
  unfold float_of_int.
  destruct (binary_normalize prec emax z 0 false); intros H;
    try discriminate; injection H as <-; reflexivity.
Qed.


(** The weight vector, written out. *)
Lemma upl_explicit (c1 c2 : float) :
  imul_index [4%nat; 8%nat] c1 (np_ones 12)
  = Ok [1; 1; 1; 1; 1 * c1; 1; 1; 1; 1 * c1; 1; 1; 1]
  /\ imul_slice 5 8 c2 [1; 1; 1; 1; 1 * c1; 1; 1; 1; 1 * c1; 1; 1; 1]
     = [1; 1; 1; 1; 1 * c1; 1 * c2; 1 * c2; 1 * c2; 1 * c1; 1; 1; 1].
Proof. split; reflexivity. Qed.

(** The guarded division of line 152 does not raise. *)
Lemma guarded_div (x y : float) :
  exists b, (if truthy y && (0 <? y) then py_div x y else Ok nan) = Ok b
            /\ (b = nan \/ ((0 <? y) = true /\ b = x / y)).
Proof.
  unfold truthy, py_div. destruct (y =? 0); simpl.
  - exists nan. auto.
  - destruct (0 <? y); [exists (x / y) | exists nan]; auto.
Qed.


(** The run, with its four conversions done. *)
Lemma run_cases (o : sum_order) (i : Inputs) :
  (exists e, run o i = Raise e /\ e = OverflowError)
  \/ exists p tf ne su be,
       float_of_int (pop i) = Ok p
       /\ float_of_int (tourist_footfall i) = Ok tf
       /\ float_of_int (num_events i) = Ok ne
       /\ float_of_int (service_units i) = Ok su
       /\ let adults := p * adult_share i in
          let runners := adults * run_share i in
          let local_pairs := runners * pairs_per_runner i in
          let local_pairs_captured := local_pairs * capture_local i in
          let rev_local_shoes := local_pairs_captured * asp_shoes i in
          let rev_local_apparel := rev_local_shoes * attach_apparel i in
          let rev_tourist_core := tf * tourist_conv i * tourist_aov i in
          let rev_events := ne * event_sales i in
          let rev_services := su * service_price i in
          let turnover :=
            rev_local_shoes + rev_local_apparel + rev_tourist_core
            + rev_events + rev_services in
          let gp_shoes := rev_local_shoes * gm_shoes i in
          let gp_apparel := rev_local_apparel * gm_apparel i in
          let gp_tour := (rev_tourist_core + rev_events) * gm_tour i in
          let gp_total := gp_shoes + gp_apparel + gp_tour + rev_services in
          let opex :=
            rent i + staff i + utilities i + marketing i + misc i
            + other i in
          let gp_pct :=
            try_except
              (if 0 <? turnover then py_div gp_total turnover else Ok nan)
              nan in
          let c1 := 1 + shoulder_uplift i in
          let c2 := 1 + summer_uplift i in
          let upl :=
            [1; 1; 1; 1; 1 * c1; 1 * c2; 1 * c2; 1 * c2; 1 * c1; 1; 1; 1] in
          (be = nan \/ ((0 <? gp_pct) = true /\ be = opex / gp_pct))
          /\ run o i =
             Ok {| r_adults := adults; r_runners := runners;
                   r_local_pairs := local_pairs;
                   r_local_pairs_captured := local_pairs_captured;
                   r_rev_local_shoes := rev_local_shoes;
                   r_rev_local_apparel := rev_local_apparel;
                   r_rev_tourist_core := rev_tourist_core;
                   r_rev_events := rev_events;
                   r_rev_services := rev_services;
                   r_turnover := turnover; r_gp_shoes := gp_shoes;
                   r_gp_apparel := gp_apparel; r_gp_tour := gp_tour;
                   r_gp_services := rev_services; r_gp_total := gp_total;
                   r_opex := opex; r_op := gp_total - opex;
                   r_gp_pct := gp_pct; r_be_sales := be;
                   r_season :=
                     map (fun x => x * turnover)
                       (map (fun x => x / np_sum o upl) upl) |}.
Proof.
  unfold run.
  destruct (float_of_int (pop i)) as [p | e] eqn:Ep;
    [|left; exists e; split; [reflexivity | eapply float_of_int_raises; eassumption]].
  cbn [mbind pyres_bind].
  destruct (float_of_int (tourist_footfall i)) as [tf | e] eqn:Et;
    [|left; exists e; split; [reflexivity | eapply float_of_int_raises; eassumption]].
  cbn [mbind pyres_bind].
  destruct (float_of_int (num_events i)) as [ne | e] eqn:En;
    [|left; exists e; split; [reflexivity | eapply float_of_int_raises; eassumption]].
  cbn [mbind pyres_bind].
  destruct (float_of_int (service_units i)) as [su | e] eqn:Es;
    [|left; exists e; split; [reflexivity | eapply float_of_int_raises; eassumption]].
  cbn [mbind pyres_bind]. cbv zeta.
  right.
  match goal with
  | |- context [if truthy ?y && (0 <? ?y) then py_div ?x ?y else Ok nan] =>
      destruct (guarded_div x y) as (be & Hbe & Hbv); rewrite Hbe
  end.
  cbn [mbind pyres_bind].
  destruct (upl_explicit (1 + shoulder_uplift i) (1 + summer_uplift i))
    as [Hu1 Hu2].
  rewrite Hu1. cbn [mbind pyres_bind]. rewrite Hu2.
  exists p, tf, ne, su, be. do 4 (split; [reflexivity|]).
  split; [exact Hbv | reflexivity].
Qed.



End Signs.

(** * Further properties of the script *)

(** ** The shape of the monthly profile *)



(** ** Rounding and the displayed amounts *)

Lemma Qfloor_nonneg (q : Q) : 0 <= q -> (0 <= Qfloor q)%Z.
Proof.
  intros H. change 0%Z with (Qfloor 0). apply Qfloor_resp_le. exact H.
Qed.

Lemma Qfloor_neg (q : Q) : q < 0 -> (Qfloor q + 1 <= 0)%Z.
Proof.
  intros H. pose proof (Qfloor_le q) as Hf.
  assert (Hlt : inject_Z (Qfloor q) < inject_Z 0).
  { apply Qle_lt_trans with q; assumption. }
  rewrite <- Zlt_Qlt in Hlt. lia.
Qed.

Lemma round_half_even_nonneg (q : Q) :
  0 <= q -> (0 <= round_half_even q)%Z.
Proof.
  intros H. pose proof (Qfloor_nonneg q H).
  destruct (round_half_even_floor q) as [-> | ->]; lia.
Qed.

Lemma round_half_even_nonpos (q : Q) :
  q < 0 -> (round_half_even q <= 0)%Z.
Proof.
  intros H. pose proof (Qfloor_neg q H).
  destruct (round_half_even_floor q) as [-> | ->]; lia.
Qed.

Lemma round_half_even_int (z : Z) : round_half_even (inject_Z z) = z.
Proof.
  unfold round_half_even. cbv zeta. rewrite Qfloor_Z.
  assert (H : Qltb (inject_Z z - inject_Z z) (1 # 2) = true).
  { apply Qltb_lt. setoid_replace (inject_Z z - inject_Z z) with 0
      using relation Qeq by ring. reflexivity. }
  rewrite H. reflexivity.
Qed.

Lemma round_half_even_mono (p q : Q) :
  p <= q -> (round_half_even p <= round_half_even q)%Z.
Proof.
  intros Hpq. pose proof (Qfloor_resp_le p q Hpq) as Hf.
  destruct (Z.eq_dec (Qfloor p) (Qfloor q)) as [Heq | Hne].
  - unfold round_half_even. cbv zeta. rewrite Heq.
    set (f := Qfloor q).
    destruct (Qltb (p - inject_Z f) (1 # 2)) eqn:P1.
    { destruct (Qltb (q - inject_Z f) (1 # 2));
        [lia | destruct (Qltb (1 # 2) (q - inject_Z f));
               [lia | destruct (Z.even f); lia]]. }
    apply Qltb_ge in P1.
    assert (Q1 : Qltb (q - inject_Z f) (1 # 2) = false).
    { apply Qltb_ge. lra. }
    rewrite Q1.
    destruct (Qltb (1 # 2) (p - inject_Z f)) eqn:P2.
    { apply Qltb_lt in P2.
      assert (Q2 : Qltb (1 # 2) (q - inject_Z f) = true).
      { apply Qltb_lt. lra. }
      rewrite Q2. lia. }
    destruct (Qltb (1 # 2) (q - inject_Z f)); destruct (Z.even f); lia.
  - destruct (round_half_even_floor p) as [-> | ->];
      destruct (round_half_even_floor q) as [-> | ->]; lia.
Qed.

Lemma uint_digits (d : Decimal.uint) :
  Forall (fun c => is_digit c = true)
    (list_ascii_of_string (NilEmpty.string_of_uint d)).
Proof. induction d; simpl; constructor; try exact IHd; reflexivity. Qed.

Lemma digits_are_digits (n : N) :
  Forall (fun c => is_digit c = true) (list_ascii_of_string (digits n)).
Proof.
  unfold digits, NilZero.string_of_uint.
  destruct (N.to_uint n) eqn:E; try (rewrite <- E; apply uint_digits).
  repeat constructor.
Qed.

Lemma drop_prefix_app (p s : string) : drop_prefix p (p +:+ s) = Some s.
Proof.
  induction p as [|c p IH]; simpl; [reflexivity|].
  rewrite Ascii.eqb_refl. exact IH.
Qed.

(** A string that starts with a digit does not start with a minus sign. *)
Lemma drop_minus_digit (s : string) :
  is_digit (hd "0"%char (list_ascii_of_string s)) = true ->
  drop_prefix "-" s = None.
Proof.
  destruct s as [|c s]; [reflexivity|].
  cbn [list_ascii_of_string hd drop_prefix]. intros Hc.
  destruct (Ascii.eqb_spec "-"%char c) as [<- | _];
    [discriminate | reflexivity].
Qed.

Lemma group3_starts_with_digit (n : N) :
  is_digit (hd "0"%char (list_ascii_of_string (group3 (digits n)))) = true.
Proof.
  rewrite group3_head. pose proof (digits_are_digits n) as H.
  destruct (list_ascii_of_string (digits n)) as [|c l]; [reflexivity|].
  simpl. inversion H. assumption.
Qed.

Lemma parse_group3 (n : N) :
  parse_digits (strip_commas (group3 (digits n))) = Some n.
Proof.
  rewrite strip_group3 by apply digits_comma_free. apply parse_digits_digits.
Qed.

Lemma parse_fmt_gbp (q : Q) :
  parse_gbp (fmt_gbp (OFloat (Fin q))) = Some (round_half_even q).
Proof.
  unfold parse_gbp, fmt_gbp.
  cbn [format_obj_f0 mbind pyres_bind try_except format_f0].
  rewrite drop_prefix_app. cbn [mbind option_bind].
  unfold sign_of. destruct (Qltb q 0) eqn:Hq.
  - apply Qltb_lt in Hq. rewrite drop_prefix_app.
    rewrite parse_group3. cbn [fmap option_fmap option_map].
    pose proof (round_half_even_nonpos q Hq). f_equal.
    rewrite N2Z.inj_abs_N. lia.
  - apply Qltb_ge in Hq.
    change (EmptyString +:+ ?x) with x.
    rewrite drop_minus_digit by apply group3_starts_with_digit.
    rewrite parse_group3. cbn [fmap option_fmap option_map].
    pose proof (round_half_even_nonneg q Hq). f_equal.
    rewrite N2Z.inj_abs_N. lia.
Qed.

(** X7.  A larger amount is never displayed as a smaller one. *)
Theorem fmt_gbp_order (p q : Q) :
  p <= q ->
  exists m n, parse_gbp (fmt_gbp (OFloat (Fin p))) = Some m
              /\ parse_gbp (fmt_gbp (OFloat (Fin q))) = Some n
              /\ (m <= n)%Z.
Proof.
  intros Hpq. exists (round_half_even p), (round_half_even q).
  rewrite !parse_fmt_gbp. repeat split. apply round_half_even_mono.
  exact Hpq.
Qed.

(** Conservative and Base opex. *)
Lemma fmt_gbp_order_witness :
  exists m n, parse_gbp (fmt_gbp (OFloat (Fin 59000))) = Some m
              /\ parse_gbp (fmt_gbp (OFloat (Fin 64000))) = Some n
              /\ (m <= n)%Z.
Proof. apply (fmt_gbp_order 59000 64000). discriminate. Defined.

(** X6.  Reading the text of a finite float back gives the amount rounded
    to the nearest pound, sign included.  An int is converted to a float
    before it is formatted: up to 2^53 in size it reads back as itself, so
    two such ints are never displayed alike; beyond that digits are lost
    (2^53 + 1 is displayed as 2^53); and from 2^1024 on the text is the
    em-dash, which does not read back. *)
Theorem fmt_gbp_round_trip :
  (forall q, parse_gbp (fmt_gbp (OFloat (Fin q))) = Some (round_half_even q))
  /\ (forall z, (Z.abs z <= 2 ^ 53)%Z ->
        parse_gbp (fmt_gbp (OInt z)) = Some z)
  /\ (forall y z, (Z.abs y <= 2 ^ 53)%Z -> (Z.abs z <= 2 ^ 53)%Z ->
        fmt_gbp (OInt y) = fmt_gbp (OInt z) -> y = z)
  /\ (forall z x, float_of_int z = Ok x ->
        parse_gbp (fmt_gbp (OInt z)) = Some (round_half_even x))
  /\ parse_gbp (fmt_gbp (OInt (2 ^ 53 + 1))) = Some (2 ^ 53)%Z
  /\ (forall z, (2 ^ 1024 <= Z.abs z)%Z ->
        parse_gbp (fmt_gbp (OInt z)) = None).
Proof.
  assert (Hx : forall z x, float_of_int z = Ok x ->
            parse_gbp (fmt_gbp (OInt z)) = Some (round_half_even x)).
  { intros z x Hz. rewrite <- parse_fmt_gbp. f_equal.
    unfold fmt_gbp, format_obj_f0. rewrite Hz. reflexivity. }
  assert (Hint : forall z, (Z.abs z <= 2 ^ 53)%Z ->
            parse_gbp (fmt_gbp (OInt z)) = Some z).
  { intros z Hz. rewrite (Hx z _ (float_of_int_small z Hz)).
    rewrite round_half_even_int. reflexivity. }
  split; [exact parse_fmt_gbp|]. split; [exact Hint|].
  split.
  { intros y z Hy Hz Hyz. pose proof (Hint y Hy) as H.
    rewrite Hyz, (Hint z Hz) in H. injection H as ->. reflexivity. }
  split; [exact Hx|].
  split.
  { rewrite (Hx _ (inject_Z (2 ^ 53))); [apply f_equal, round_half_even_int|].
    vm_compute. reflexivity. }
  intros z Hz. unfold fmt_gbp, format_obj_f0.
  rewrite (float_of_int_overflow z Hz). reflexivity.
Qed.

(** One and a quarter million pounds; and 10^400. *)
Lemma fmt_gbp_round_trip_witness :
  parse_gbp "£1,234,567" = Some 1234567%Z
  /\ 1234567%Z = 1234567%Z
  /\ parse_gbp (fmt_gbp (OInt (10 ^ 400))) = None.
Proof.
  destruct fmt_gbp_round_trip as (_ & Hint & Hinj & _ & _ & Hover).
  assert (Hs : (Z.abs 1234567 <= 2 ^ 53)%Z)
    by (apply Z.leb_le; vm_compute; reflexivity).
  split.
  { assert (H : fmt_gbp (OInt 1234567) = "£1,234,567") by reflexivity.
    rewrite <- H. apply Hint. exact Hs. }
  split; [apply (Hinj 1234567%Z 1234567%Z Hs Hs); reflexivity|].
  apply Hover. apply Z.leb_le. vm_compute. reflexivity.
Defined.

(** ** The detailed table *)

Lemma list_ascii_app (s1 s2 : string) :
  list_ascii_of_string (s1 +:+ s2)
  = list_ascii_of_string s1 ++ list_ascii_of_string s2.
Proof.
  induction s1 as [|c s1 IH]; simpl; [reflexivity|]. rewrite IH. reflexivity.
Qed.

Lemma letter_free_app (s1 s2 : string) :
  letter_free s1 -> letter_free s2 -> letter_free (s1 +:+ s2).
Proof.
  unfold letter_free. intros H1 H2. rewrite list_ascii_app.
  apply Forall_app. split; assumption.
Qed.

Lemma digit_not_letter (c : ascii) : is_digit c = true -> is_letter c = false.
Proof.
  unfold is_digit, is_letter. cbv zeta. generalize (nat_of_ascii c).
  intros n H. apply andb_true_iff in H as [H1 H2].
  apply Nat.leb_le in H1, H2.
  apply orb_false_iff. split; apply andb_false_iff.
  - left. apply Nat.leb_gt. lia.
  - left. apply Nat.leb_gt. lia.
Qed.

Lemma commas_rev_Forall (P : ascii -> Prop) (ds : list ascii) (k : nat) :
  P ","%char -> Forall P ds -> Forall P (commas_rev k ds).
Proof.
  intros Hc H. revert k. induction H as [|d ds Hd _ IH]; intros k.
  - constructor.
  - rewrite commas_rev_cons. destruct (Nat.eqb k 3); repeat constructor;
      auto.
Qed.

Lemma letter_free_group3 (n : N) : letter_free (group3 (digits n)).
Proof.
  unfold letter_free, group3. rewrite list_ascii_of_string_of_list_ascii.
  apply Forall_rev. apply commas_rev_Forall; [reflexivity|].
  apply Forall_rev. eapply Forall_impl; [apply digits_are_digits|].
  intros c. apply digit_not_letter.
Qed.

Lemma letter_free_digits (n : N) : letter_free (digits n).
Proof.
  unfold letter_free. eapply Forall_impl; [apply digits_are_digits|].
  intros c. apply digit_not_letter.
Qed.

Lemma letter_free_sign (q : Q) : letter_free (sign_of q).
Proof. unfold sign_of. destruct (Qltb q 0); repeat constructor. Qed.

Lemma letter_free_fmt_gbp (q : Q) : letter_free (fmt_gbp (OFloat (Fin q))).
Proof.
  change (fmt_gbp (OFloat (Fin q)))
    with (pound +:+ sign_of q
          +:+ group3 (digits (Z.abs_N (round_half_even q)))).
  apply letter_free_app; [repeat constructor|].
  apply letter_free_app; [apply letter_free_sign | apply letter_free_group3].
Qed.

Lemma letter_free_format_f1 (q : Q) : letter_free (format_f1 (Fin q)).
Proof.
  unfold format_f1. cbv zeta.
  apply letter_free_app; [apply letter_free_sign|].
  apply letter_free_app; [apply letter_free_digits|].
  apply letter_free_app; [repeat constructor | apply letter_free_digits].
Qed.

Lemma letter_free_em_dash : letter_free em_dash.
Proof. repeat constructor. Qed.

Section Table.
Import Double.
Local Open Scope float_scope.

Lemma letter_free_fmt_gbp_double (x : float) :
  finite x = true -> letter_free (fmt_gbp x).
Proof.
  unfold finite, fmt_gbp, format_f0. intros H.
  destruct (is_minus_zero x); [repeat constructor|].
  destruct (exact x) as [q | | |]; try discriminate.
  apply (letter_free_fmt_gbp q).
Qed.

Lemma letter_free_gp_pct_cell (x : float) :
  PrimFloat.is_nan x = true \/ finite (x * 100) = true ->
  letter_free (gp_pct_cell x).
Proof.
  unfold gp_pct_cell, finite, format_f1. intros H.
  destruct (PrimFloat.is_nan x); [apply letter_free_em_dash|].
  destruct H as [H | H]; [discriminate|]. cbn [negb].
  apply letter_free_app; [|repeat constructor].
  destruct (is_minus_zero (x * 100)); [repeat constructor|].
  destruct (exact (x * 100)) as [q | | |]; try discriminate.
  apply letter_free_format_f1.
Qed.

Lemma letter_free_be_sales_cell (x : float) :
  PrimFloat.is_nan x = true \/ finite x = true ->
  letter_free (be_sales_cell x).
Proof.
  unfold be_sales_cell. intros H.
  destruct (PrimFloat.is_nan x); [apply letter_free_em_dash|].
  destruct H as [H | H]; [discriminate|].
  apply letter_free_fmt_gbp_double. exact H.
Qed.

Lemma py_round_cases (x : float) :
  (finite x = true /\ exists z, py_round x = Ok z)
  \/ (finite x = false
      /\ (py_round x = Raise ValueError \/ py_round x = Raise OverflowError)).
Proof.
  unfold finite, py_round.
  destruct (exact x); [left; eauto | right; auto ..].
Qed.

(** One of the four counts cannot be rounded: the table is not built. *)
Ltac table_stops H :=
  split; [|split; [|split; [|split]]];
  [ split;
    [ intros [t Ht]; destruct H as [H | H]; rewrite H in Ht; discriminate
    | intros HF; repeat (apply Forall_cons in HF as [? HF]); congruence ]
  | intros e He; destruct H as [H | H]; rewrite H in He;
    injection He as <-; auto
  | intros t Ht; destruct H as [H | H]; rewrite H in Ht; discriminate
  | unfold gp_pct_cell; intros ->; reflexivity
  | unfold be_sales_cell; intros ->; reflexivity ].

(** X9.  The detailed table is built exactly when the four counts it
    rounds are finite; a count that is NaN or infinite stops it with
    ValueError or OverflowError.  When it is built it has the 19 metric
    names in order, and if the amounts are finite no cell holds a letter:
    a NaN margin or breakeven figure shows as an em-dash, never as nan. *)
Theorem summary_letter_free (r : Results) :
  ((exists t, summary r = Ok t)
   <-> Forall (fun x => finite x = true)
         [r_adults r; r_runners r; r_local_pairs r;
          r_local_pairs_captured r])
  /\ (forall e, summary r = Raise e -> e = ValueError \/ e = OverflowError)
  /\ (forall t, summary r = Ok t ->
        t.*1 = summary_metrics
        /\ length t = 19%nat
        /\ (Forall (fun x => finite x = true) (amounts r) ->
            PrimFloat.is_nan (r_gp_pct r) = true
            \/ finite (r_gp_pct r * 100) = true ->
            PrimFloat.is_nan (r_be_sales r) = true
            \/ finite (r_be_sales r) = true ->
            Forall cell_letter_free t.*2))
  /\ (PrimFloat.is_nan (r_gp_pct r) = true ->
      gp_pct_cell (r_gp_pct r) = em_dash)
  /\ (PrimFloat.is_nan (r_be_sales r) = true ->
      be_sales_cell (r_be_sales r) = em_dash).
Proof.
  unfold summary.
  destruct (py_round_cases (r_adults r)) as [[F1 [z1 ->]] | [F1 H]];
    cbn [mbind pyres_bind]; [|table_stops H].
  destruct (py_round_cases (r_runners r)) as [[F2 [z2 ->]] | [F2 H]];
    cbn [mbind pyres_bind]; [|table_stops H].
  destruct (py_round_cases (r_local_pairs r)) as [[F3 [z3 ->]] | [F3 H]];
    cbn [mbind pyres_bind]; [|table_stops H].
  destruct (py_round_cases (r_local_pairs_captured r))
    as [[F4 [z4 ->]] | [F4 H]]; cbn [mbind pyres_bind]; [|table_stops H].
  split; [|split; [|split; [|split]]].
  - split; [|intros _; eexists; reflexivity].
    intros _. repeat (constructor; [assumption|]). constructor.
  - intros e He. discriminate He.
  - intros t Ht. unfold data_frame in Ht. cbn in Ht. injection Ht as <-.
    split; [reflexivity|]. split; [reflexivity|].
    intros Ha Hgp Hbe. unfold amounts in Ha.
    cbn [fmap list_fmap snd].
    repeat (apply Forall_cons in Ha as [? Ha]).
    repeat (constructor;
            [first [exact I
                   | apply letter_free_fmt_gbp_double; assumption
                   | apply letter_free_gp_pct_cell; exact Hgp
                   | apply letter_free_be_sales_cell; exact Hbe]|]).
    constructor.
  - unfold gp_pct_cell. intros ->. reflexivity.
  - unfold be_sales_cell. intros ->. reflexivity.
Qed.

(** The Base preset: the table is built and shows no letter. *)
Lemma summary_letter_free_witness :
  exists r t, run pairwise12 base_inputs = Ok r
              /\ summary r = Ok t
              /\ Forall cell_letter_free t.*2.
Proof.
  destruct (run pairwise12 base_inputs) as [r | e] eqn:E.
  2:{ exfalso. vm_compute in E. discriminate E. }
  vm_compute in E. injection E as <-.
  match goal with
  | |- exists _ _, Ok ?R = _ /\ _ =>
      destruct (summary_letter_free R) as (Hiff & _ & Hok & _);
      destruct (proj2 Hiff) as [t Ht];
      [repeat (constructor; [reflexivity|]); constructor|];
      exists R, t
  end.
  split; [reflexivity|]. split; [exact Ht|].
  destruct (Hok t Ht) as (_ & _ & Hfree). apply Hfree.
  - repeat (constructor; [reflexivity|]). constructor.
  - right. reflexivity.
  - right. reflexivity.
Defined.
End Table.

(** ** Which exceptions the calculations can raise *)

Section Exceptions.
Import Double.
Local Open Scope float_scope.

Lemma digits2_size (p : positive) : digits2_pos p = Pos.size p.
Proof. induction p; simpl; congruence. Qed.

Lemma digits2_iter_xO (p : positive) (n : positive) :
  digits2_pos (Pos.iter xO p n) = (digits2_pos p + n)%positive.
Proof.
  induction n as [|n IH] using Pos.peano_ind.
  - simpl. lia.
  - rewrite Pos.iter_succ. simpl. rewrite IH. lia.
Qed.

Lemma digits2_small (p : positive) :
  (Zpos p < 2 ^ 53)%Z -> (Zpos (digits2_pos p) <= 53)%Z.
Proof.
  intros H. rewrite digits2_size.
  pose proof (Pos.size_le p) as Hle.
  assert (Hz : (2 ^ Zpos (Pos.size p) <= 2 * Zpos p)%Z).
  { rewrite <- Pos2Z.inj_pow. change (2 * Zpos p)%Z with (Zpos p~0). lia. }
  destruct (Z.le_gt_cases (Zpos (Pos.size p)) 53) as [|Hgt]; [assumption|].
  exfalso.
  assert (Hp : (2 ^ 54 <= 2 ^ Zpos (Pos.size p))%Z)
    by (apply Z.pow_le_mono_r; lia).
  change (2 ^ 54)%Z with (2 * 2 ^ 53)%Z in Hp. lia.
Qed.

(** An int of at most 53 bits is a double. *)
Lemma binary_round_small (sx : bool) (p : positive) :
  (Zpos p < 2 ^ 53)%Z ->
  exists m e, binary_round prec emax sx p 0 = S754_finite sx m e.
Proof.
  intros H. pose proof (digits2_small p H) as Hd.
  unfold binary_round.
  assert (Hf : fexp prec emax (Zpos (digits2_pos p) + 0)
               = (Zpos (digits2_pos p) - 53)%Z).
  { unfold fexp, emin, prec, emax. lia. }
  rewrite Hf. unfold shl_align.
  assert (Haux : forall mz ez,
            Zpos (digits2_pos mz) = 53%Z -> (-52 <= ez <= 0)%Z ->
            binary_round_aux prec emax sx (Zpos mz) ez loc_Exact
            = S754_finite sx mz ez).
  { intros mz ez Hmz Hez. unfold binary_round_aux, shr_fexp.
    cbn [Zdigits2 shr_record_of_loc]. rewrite Hmz.
    assert (Hfe : (fexp prec emax (53 + ez) - ez = 0)%Z)
      by (unfold fexp, emin, prec, emax; lia).
    rewrite Hfe. cbn [shr shr_m loc_of_shr_record round_nearest_even
                      Zdigits2 shr_record_of_loc].
    rewrite Hmz, Hfe. cbn [shr shr_m].
    destruct (Z.leb_spec ez (emax - prec)) as [_ | Hbad]; [reflexivity|].
    unfold emax, prec in Hbad. lia. }
  destruct (Zpos (digits2_pos p) - 53 - 0)%Z as [|d|d] eqn:Ed.
  - exists p, 0%Z. apply Haux; lia.
  - lia.
  - exists (Pos.iter xO p d), (Zpos (digits2_pos p) - 53)%Z.
    apply Haux; [|lia]. rewrite digits2_iter_xO. lia.
Qed.

Lemma float_of_int_converts (z : Z) :
  (Z.abs z < 2 ^ 53)%Z -> exists f, Double.float_of_int z = Ok f.
Proof.
  intros H. unfold Double.float_of_int.
  destruct z as [|p|p]; cbn [binary_normalize].
  - eexists. reflexivity.
  - destruct (binary_round_small false p H) as (m & e & ->). eexists.
    reflexivity.
  - destruct (binary_round_small true p H) as (m & e & ->). eexists.
    reflexivity.
Qed.

Lemma float_of_int_fails (z : Z) (e : pyexc) :
  float_of_int z = Raise e -> (2 ^ 53 <= Z.abs z)%Z.
Proof.
  intros H. destruct (Z.le_gt_cases (2 ^ 53) (Z.abs z)) as [|Hlt];
    [assumption|].
  destruct (float_of_int_converts z) as [f Hf]; [lia|]. congruence.
Qed.

(** X10.  On ints and binary64 floats, whatever their values (zero,
    negative, NaN or infinite ones included), lines 122 to 186 never raise
    ZeroDivisionError or IndexError: the one exception they can raise is
    OverflowError, and only when one of the four int inputs has 2^53 or
    more in size.  With the four ints smaller than that the calculations
    return; and whenever they return, the monthly table is built with one
    row per month name, in order. *)
Theorem script_never_raises (o : sum_order) (i : Inputs) :
  (forall e, run o i = Raise e ->
     e = OverflowError
     /\ ((2 ^ 53 <= Z.abs (pop i))%Z
         \/ (2 ^ 53 <= Z.abs (tourist_footfall i))%Z
         \/ (2 ^ 53 <= Z.abs (num_events i))%Z
         \/ (2 ^ 53 <= Z.abs (service_units i))%Z))
  /\ ((Z.abs (pop i) < 2 ^ 53)%Z ->
      (Z.abs (tourist_footfall i) < 2 ^ 53)%Z ->
      (Z.abs (num_events i) < 2 ^ 53)%Z ->
      (Z.abs (service_units i) < 2 ^ 53)%Z ->
      exists r, run o i = Ok r)
  /\ (forall r, run o i = Ok r ->
        length (r_season r) = 12%nat
        /\ exists s, data_frame months (r_season r) = Ok s
                     /\ s.*1 = months /\ s.*2 = r_season r).
Proof.
  assert (Hraise : forall e, run o i = Raise e ->
     e = OverflowError
     /\ ((2 ^ 53 <= Z.abs (pop i))%Z
         \/ (2 ^ 53 <= Z.abs (tourist_footfall i))%Z
         \/ (2 ^ 53 <= Z.abs (num_events i))%Z
         \/ (2 ^ 53 <= Z.abs (service_units i))%Z)).
  { intros e He. unfold run in He.
    destruct (float_of_int (pop i)) as [p | e1] eqn:E1;
      cbn [mbind pyres_bind] in He.
    2:{ injection He as <-.
        split; [eapply float_of_int_raises; eassumption|].
        left. eapply float_of_int_fails; eassumption. }
    destruct (float_of_int (tourist_footfall i)) as [tf | e2] eqn:E2;
      cbn [mbind pyres_bind] in He.
    2:{ injection He as <-.
        split; [eapply float_of_int_raises; eassumption|].
        right; left. eapply float_of_int_fails; eassumption. }
    destruct (float_of_int (num_events i)) as [ne | e3] eqn:E3;
      cbn [mbind pyres_bind] in He.
    2:{ injection He as <-.
        split; [eapply float_of_int_raises; eassumption|].
        right; right; left. eapply float_of_int_fails; eassumption. }
    destruct (float_of_int (service_units i)) as [su | e4] eqn:E4;
      cbn [mbind pyres_bind] in He.
    2:{ injection He as <-.
        split; [eapply float_of_int_raises; eassumption|].
        right; right; right. eapply float_of_int_fails; eassumption. }
    exfalso. cbv zeta in He.
    match type of He with
    | context [if truthy ?y && (0 <? ?y) then py_div ?x ?y else Ok nan] =>
        destruct (guarded_div x y) as (b & Hb & _); rewrite Hb in He
    end.
    discriminate He. }
  split; [exact Hraise|]. split.
  - intros H1 H2 H3 H4. destruct (run o i) as [r | e] eqn:E.
    + exists r. reflexivity.
    + destruct (Hraise e eq_refl) as [_ Hbig]. lia.
  - intros r Hr.
    destruct (run_cases o i)
      as [(e' & He' & _) | (p & tf & ne & su & be & _ & _ & _ & _ & H)];
      [congruence|].
    cbv zeta in H. destruct H as [_ Hrun]. rewrite Hrun in Hr.
    injection Hr as <-. cbn [r_season].
    split; [reflexivity|]. eexists. split; [reflexivity|].
    split; [apply fst_zip | apply snd_zip]; reflexivity.
Qed.

(** The Base preset. *)
Lemma script_never_raises_witness :
  exists r, run pairwise12 base_inputs = Ok r
            /\ length (r_season r) = 12%nat.
Proof.
  destruct (script_never_raises pairwise12 base_inputs) as (_ & Hok & Hs).
  destruct Hok as [r Hr]; try (apply Z.ltb_lt; vm_compute; reflexivity).
  exists r. split; [exact Hr|]. destruct (Hs r Hr) as [Hl _]. exact Hl.
Defined.
End Exceptions.

(** ** Merged presets *)

(** X12.  Whatever dictionary of overrides is merged over the defaults,
    an overridden key takes the override's value, every other key keeps
    its default, and each of the 25 lookups the sidebar makes in the
    merged preset finds its key. *)
Theorem merged_preset_readable (o : gmap string pyval) :
  (forall k,
     dict_merge defaults o !! k
     = match o !! k with
       | Some v => Some v
       | None => defaults !! k
       end)
  /\ Forall (fun k => exists v, getitem (dict_merge defaults o) k = Ok v
                                /\ (o !! k = None -> defaults !! k = Some v)
                                /\ (forall w, o !! k = Some w -> v = w))
       sidebar_keys.
Proof.
  split; [intros k; apply dict_merge_lookup|].
  rewrite Forall_forall. intros k Hk. unfold getitem.
  rewrite dict_merge_lookup.
  destruct (o !! k) as [w|] eqn:Eo.
  - exists w. split; [reflexivity|]. split; [discriminate|].
    intros w' Hw. congruence.
  - unfold sidebar_keys in Hk. unfold defaults. rewrite dict_lookup.
    repeat (apply elem_of_cons in Hk as [-> | Hk];
            [eexists; split; [reflexivity|]; split;
             [intros _; reflexivity | discriminate]|]).
    apply elem_of_nil in Hk. destruct Hk.
Qed.

(** Stretch's own overrides: capture is overridden, rent is not. *)
Lemma merged_preset_readable_witness :
  getitem (dict_merge defaults stretch_overrides) "rent" = Ok (PyFloat 29000.0)
  /\ Forall (fun k => exists v,
               getitem (dict_merge defaults stretch_overrides) k = Ok v)
       sidebar_keys.
Proof.
  destruct (merged_preset_readable stretch_overrides) as [Hm Hall].
  split.
  - unfold getitem. rewrite Hm. unfold stretch_overrides, defaults.
    rewrite !dict_lookup. reflexivity.
  - eapply Forall_impl; [exact Hall|]. intros k (v & Hv & _). exists v.
    exact Hv.
Defined.
